(** * dragndrop: the field-list state machine of the form builder

    Shallow embedding of the state logic of the two page components
    - [src/app/page.tsx]   (module [Page]):   palette + sortable list + edit modal;
    - the fixed-list page  (module [Static]): three preset fields, sortable list + edit modal;
    together with the library operations they call on arrays
    ([findIndex], [find], [map], [splice], and dnd-kit's [arrayMove]).

    A JavaScript array of [Field] may hold [undefined] at run time, and a
    callback that reads [.id] of [undefined] throws.  Array slots are
    therefore [option Field] ([None] is [undefined]) and handlers live in a
    small error monad whose only failure is an uncaught [TypeError]. *)

From stdpp Require Import base tactics option list strings pretty.
From Stdlib Require Import Ascii ZArith Lia.

Local Open Scope string_scope.
Local Open Scope list_scope.
Local Open Scope Z_scope.

(** ** Error monad *)

Inductive result (A : Type) : Type :=
  | Ok (a : A)
  | TypeError.
Arguments Ok {A} a.
Arguments TypeError {A}.

Global Instance result_ret : MRet result := λ A a, Ok a.
Global Instance result_bind : MBind result := λ A B k m,
  match m with
  | Ok a => k a
  | TypeError => TypeError
  end.

(** ** Data model *)

(** [keyof FieldTypes] *)
Inductive FieldType := text | textarea | date.

Global Instance FieldType_eq_dec : EqDecision FieldType.
Proof. solve_decision. Defined.

(** [type Field = { id; type; label; className? }] *)
Record Field := mkField {
  id : string;
  type : FieldType;
  label : string;
  className : option string;
}.

Global Instance Field_eq_dec : EqDecision Field.
Proof. solve_decision. Defined.

(** A slot of a JavaScript array of fields: an object, or [undefined]. *)
Abbreviation slot := (option Field).

(** What [fieldTypes[t](props)] builds; [Calendar] takes no placeholder. *)
Inductive Widget :=
  | Input (placeholder className : string)
  | Textarea (placeholder className : string)
  | Calendar (className : string).

(** JavaScript [a || d] on an optional string: [undefined] and the empty
    string are falsy. *)
Definition or_else (a : option string) (d : string) : string :=
  match a with
  | Some s => if String.eqb s "" then d else s
  | None => d
  end.

Definition fieldTypes (t : FieldType) (lbl : string) (cls : option string) : Widget :=
  match t with
  | text => Input lbl (or_else cls "w-full")
  | textarea => Textarea lbl (or_else cls "w-full")
  | date => Calendar (or_else cls "w-full")
  end.

Definition widgetClass (w : Widget) : string :=
  match w with
  | Input _ c | Textarea _ c | Calendar c => c
  end.

(** ** Array operations *)

Section arrays.
Context {T : Type}.

(** [a.findIndex(p)]: the first index whose element satisfies [p], or -1;
    the callback runs on the elements in order and may throw. *)
Fixpoint findIndexFrom (p : T → result bool) (a : list T) (k : Z) : result Z :=
  match a with
  | [] => Ok (-1)
  | x :: r => b ← p x ; if (b : bool) then Ok k else findIndexFrom p r (k + 1)
  end.

Definition findIndex (p : T → result bool) (a : list T) : result Z :=
  findIndexFrom p a 0.

(** [a.find(p)]: the first element satisfying [p], or [undefined]. *)
Fixpoint find (p : T → result bool) (a : list T) : result (option T) :=
  match a with
  | [] => Ok None
  | x :: r => b ← p x ; if (b : bool) then Ok (Some x) else find p r
  end.

(** [a.map(f)] with a callback that may throw. *)
Fixpoint mapR {U} (f : T → result U) (a : list T) : result (list U) :=
  match a with
  | [] => Ok []
  | x :: r => y ← f x ; ys ← mapR f r ; Ok (y :: ys)
  end.

(** [a.splice(start, deleteCount, ...items)] on integer arguments:
    returns the removed elements and the array after the mutation. *)
Definition splice (a : list T) (start deleteCount : Z) (items : list T)
  : list T * list T :=
  let len := Z.of_nat (length a) in
  let actualStart :=
    if start <? 0 then Z.max (len + start) 0 else Z.min start len in
  let actualDeleteCount := Z.min (Z.max deleteCount 0) (len - actualStart) in
  let s := Z.to_nat actualStart in
  let d := Z.to_nat actualDeleteCount in
  (take d (drop s a), take s a ++ items ++ drop (s + d)%nat a).
End arrays.

(** [arrayMove] of [@dnd-kit/sortable], which both pages import:
<<
  const newArray = array.slice();
  newArray.splice(to < 0 ? newArray.length + to : to, 0,
                  newArray.splice(from, 1)[0]);
  return newArray;
>>
    The first argument of the outer [splice] is evaluated before the inner
    [splice] shortens the array; [removed[0]] is [undefined] when nothing
    was removed. *)
Definition arrayMove {A} (array : list (option A)) (from to : Z) : list (option A) :=
  let newArray := array in
  let start := if to <? 0 then Z.of_nat (length newArray) + to else to in
  let '(removed, newArray) := splice newArray from 1 [] in
  let item := default None (removed !! 0%nat) in
  snd (splice newArray start 0 [item]).

(** ** Component state

    The [useState] cells of [AdminUI]; both pages declare the same seven.
    Events are handled one at a time, each against the state the page was
    last rendered with, so the [fields] a handler closes over and the [prev]
    its updater receives are the same list. *)
Record State := mkState {
  fields : list slot;
  editingId : option string;
  editLabel : string;
  editType : FieldType;
  editClass : string;
  showModal : bool;
  activeId : option string;
}.

Definition setFields (v : list slot) (s : State) : State :=
  mkState v (editingId s) (editLabel s) (editType s) (editClass s) (showModal s) (activeId s).
Definition setEditingId (v : option string) (s : State) : State :=
  mkState (fields s) v (editLabel s) (editType s) (editClass s) (showModal s) (activeId s).
Definition setEditLabel (v : string) (s : State) : State :=
  mkState (fields s) (editingId s) v (editType s) (editClass s) (showModal s) (activeId s).
Definition setEditType (v : FieldType) (s : State) : State :=
  mkState (fields s) (editingId s) (editLabel s) v (editClass s) (showModal s) (activeId s).
Definition setEditClass (v : string) (s : State) : State :=
  mkState (fields s) (editingId s) (editLabel s) (editType s) v (showModal s) (activeId s).
Definition setShowModal (v : bool) (s : State) : State :=
  mkState (fields s) (editingId s) (editLabel s) (editType s) (editClass s) v (activeId s).
Definition setActiveId (v : option string) (s : State) : State :=
  mkState (fields s) (editingId s) (editLabel s) (editType s) (editClass s) (showModal s) v.

(** The callback [(f) => f.id === x]; [x] is [None] when the right-hand
    side is [null] or [undefined], which no string equals. *)
Definition idIs (x : option string) (f : slot) : result bool :=
  match f with
  | Some f => Ok (bool_decide (Some (id f) = x))
  | None => TypeError
  end.

(** [{ ...f, label: editLabel, type: editType, className: editClass }] *)
Definition withDraft (s : State) (f : Field) : Field :=
  mkField (id f) (editType s) (editLabel s) (Some (editClass s)).

(** The drag library's [DragEndEvent], reduced to what the handlers read:
    [active.id], and [over.id] when [over] is not [null]. *)
Record DragEndEvent := mkDragEnd {
  active : string;
  over : option string;
}.

(** [openEditModal], the same text in both pages. *)
Definition openEditModal (s : State) (x : string) : result State :=
  field ← find (idIs (Some x)) (fields s);
  match field with
  | None => Ok s
  | Some None => Ok s
  | Some (Some f) =>
      Ok (setShowModal true
           (setEditClass (or_else (className f) "")
             (setEditType (type f)
               (setEditLabel (label f)
                 (setEditingId (Some x) s)))))
  end.

(** The rendered list, the same text in both pages: [fields.map((field) =>
    <SortableItem key={field.id} id={field.id} field={field} .../>)], each
    item showing [fieldTypes[field.type](field)].  The keys are also the
    [items] of [SortableContext], [fields.map((field) => field.id)]. *)
Definition sortableList (s : State) : result (list (string * Widget)) :=
  mapR (λ f : slot,
          match f with
          | Some f => Ok (id f, fieldTypes (type f) (label f) (className f))
          | None => TypeError
          end)
       (fields s).

(** *** [src/app/page.tsx] *)
Module Page.

Definition MAX_FIELDS : nat := 10.

Definition availableFields : list Field :=
  [ mkField "text" text "Text Field" None;
    mkField "textarea" textarea "Textarea Field" None;
    mkField "date" date "Date Field" None ].

Definition init : State := mkState [] None "" text "" false None.

Definition handleDragStart (s : State) (x : string) : State :=
  setActiveId (Some x) s.

Definition handleDragEnd (s : State) (event : DragEndEvent) : result State :=
  let s := setActiveId None s in
  match over event with
  | None => Ok s
  | Some o =>
      if bool_decide (active event ≠ o) then
        let items := fields s in
        oldIndex ← findIndex (idIs (Some (active event))) items;
        newIndex ← findIndex (idIs (Some o)) items;
        Ok (setFields (arrayMove items oldIndex newIndex) s)
      else Ok s
  end.

(** [now] is the value of [Date.now()]; the second component is what the
    call writes with [console.warn]. *)
Definition handleAddField (s : State) (fieldType : Field) (now : N)
  : State * list string :=
  if bool_decide (MAX_FIELDS ≤ length (fields s))%nat then
    (s, ["Maximum of " +:+ pretty MAX_FIELDS +:+ " fields reached"])
  else
    let newField :=
      mkField (id fieldType +:+ "-" +:+ pretty now)
              (type fieldType)
              (label fieldType +:+ " " +:+ pretty (length (fields s) + 1)%nat)
              (className fieldType) in
    (setFields (fields s ++ [Some newField]) s, []).

Definition handleSaveEdit (s : State) : result State :=
  fs ← mapR (λ f : slot,
               b ← idIs (editingId s) f;
               Ok (if (b : bool) then withDraft s <$> f else f))
            (fields s);
  Ok (setShowModal false (setFields fs s)).

(** What the rendered page lets the user do. *)
Inductive Event :=
  | DragStart (x : string)
  | DragEnd (event : DragEndEvent)
  | AddField (fieldType : Field) (now : N)
  | OpenEdit (x : string)
  | ChangeLabel (v : string)
  | ChangeType (v : FieldType)
  | ChangeClass (v : string)
  | SaveEdit
  | OpenChange (v : bool).

Definition step (s : State) (e : Event) : result State :=
  match e with
  | DragStart x => Ok (handleDragStart s x)
  | DragEnd event => handleDragEnd s event
  | AddField fieldType now => Ok (fst (handleAddField s fieldType now))
  | OpenEdit x => openEditModal s x
  | ChangeLabel v => Ok (setEditLabel v s)
  | ChangeType v => Ok (setEditType v s)
  | ChangeClass v => Ok (setEditClass v s)
  | SaveEdit => handleSaveEdit s
  | OpenChange v => Ok (setShowModal v s)
  end.

Fixpoint run (s : State) (es : list Event) : result State :=
  match es with
  | [] => Ok s
  | e :: es => s' ← step s e; run s' es
  end.

(** [activeId ? fields.find((f) => f.id === activeId) : null]; the empty
    string is falsy, and [undefined] and [null] are both shown as nothing. *)
Definition activeField (s : State) : result (option Field) :=
  match activeId s with
  | None => Ok None
  | Some x =>
      if String.eqb x "" then Ok None
      else r ← find (idIs (Some x)) (fields s);
           Ok (match r with Some (Some f) => Some f | _ => None end)
  end.

(** The child of [DragOverlay]. *)
Definition dragOverlay (s : State) : result (option Widget) :=
  f ← activeField s;
  Ok ((λ f : Field, fieldTypes (type f) (label f) (className f)) <$> (f : option Field)).

(** [disabled={fields.length >= MAX_FIELDS}] of every palette entry. *)
Definition disabled (s : State) : bool :=
  bool_decide (MAX_FIELDS ≤ length (fields s))%nat.

(** A click on a palette entry: [onClick={disabled ? undefined : onClick}]
    with [onClick = () => handleAddField(field)]. *)
Definition clickAvailableField (s : State) (field : Field) (now : N)
  : State * list string :=
  if disabled s then (s, []) else handleAddField s field now.

(** [fields.length === 0 && ...]: the "Click fields to add them" hint. *)
Definition emptyHint (s : State) : bool :=
  bool_decide (length (fields s) = 0%nat).

(** [fields.length >= MAX_FIELDS && ...]: the "Maximum ... reached" line. *)
Definition maxHint (s : State) : bool :=
  bool_decide (MAX_FIELDS ≤ length (fields s))%nat.

End Page.

(** *** The fixed-list page: three preset fields, no palette *)
Module Static.

Definition init : State :=
  mkState [ Some (mkField "1" text "Text Field" (Some "w-full"));
            Some (mkField "2" textarea "Textarea Field" (Some "w-full"));
            Some (mkField "3" date "Date Field" (Some "w-full")) ]
          None "" text "" false None.

Definition handleDragStart (s : State) (x : string) : State :=
  setActiveId (Some x) s.

Definition handleDragEnd (s : State) (event : DragEndEvent) : result State :=
  let s := setActiveId None s in
  if bool_decide (Some (active event) ≠ over event) then
    oldIndex ← findIndex (idIs (Some (active event))) (fields s);
    newIndex ← findIndex (idIs (over event)) (fields s);
    if bool_decide (oldIndex ≠ -1) && bool_decide (newIndex ≠ -1) then
      Ok (setFields (arrayMove (fields s) oldIndex newIndex) s)
    else Ok s
  else Ok s.

Definition handleSaveEdit (s : State) : result State :=
  fs ← mapR (λ f : slot,
               b ← idIs (editingId s) f;
               Ok (if (b : bool) then withDraft s <$> f else f))
            (fields s);
  Ok (setShowModal false
       (setEditClass ""
         (setEditType text
           (setEditLabel ""
             (setEditingId None (setFields fs s)))))).

(** [fields.find((f) => f.id === activeId) || null] *)
Definition activeField (s : State) : result (option Field) :=
  r ← find (idIs (activeId s)) (fields s);
  Ok (match r with Some (Some f) => Some f | _ => None end).

(** The child of [DragOverlay]. *)
Definition dragOverlay (s : State) : result (option Widget) :=
  f ← activeField s;
  Ok ((λ f : Field, fieldTypes (type f) (label f) (className f)) <$> (f : option Field)).

(** What the rendered page lets the user do. *)
Inductive Event :=
  | DragStart (x : string)
  | DragEnd (event : DragEndEvent)
  | OpenEdit (x : string)
  | ChangeLabel (v : string)
  | ChangeType (v : FieldType)
  | ChangeClass (v : string)
  | SaveEdit
  | OpenChange (v : bool).

Definition step (s : State) (e : Event) : result State :=
  match e with
  | DragStart x => Ok (handleDragStart s x)
  | DragEnd event => handleDragEnd s event
  | OpenEdit x => openEditModal s x
  | ChangeLabel v => Ok (setEditLabel v s)
  | ChangeType v => Ok (setEditType v s)
  | ChangeClass v => Ok (setEditClass v s)
  | SaveEdit => handleSaveEdit s
  | OpenChange v => Ok (setShowModal v s)
  end.

Fixpoint run (s : State) (es : list Event) : result State :=
  match es with
  | [] => Ok s
  | e :: es => s' ← step s e; run s' es
  end.

End Static.

(** ** Vocabulary of the statements *)

(** An array all of whose slots hold a field, as the type [Field[]] promises. *)
Definition defined (l : list Field) : list slot := Some <$> l.

(** The ids of the fields an array holds ([undefined] slots have none). *)
Definition ids (fs : list slot) : list string := omap (fmap id) fs.

(** [l] with [x] put in front of what was at index [j]. *)
Definition insertAt {T} (j : nat) (x : T) (l : list T) : list T :=
  take j l ++ x :: drop j l.

(** The instance an id designates, with its index: the first one carrying
    it, which is the one [findIndex] and [find] stop at. *)
Definition lookupId (x : string) (l : list Field) : option (nat * Field) :=
  list_find (λ f, id f = x) l.

(** [findIndex]'s answer for a lookup. *)
Definition indexZ (r : option (nat * Field)) : Z :=
  match r with
  | Some (i, _) => Z.of_nat i
  | None => -1
  end.

(** The (template id, timestamp) pairs of the adds of a trace. *)
Definition addKeys (es : list Page.Event) : list (string * N) :=
  omap (λ e, match e with
             | Page.AddField fieldType now => Some (id fieldType, now)
             | _ => None
             end) es.

(** The id [handleAddField] builds. *)
Definition freshId (k : string * N) : string := k.1 +:+ "-" +:+ pretty k.2.

(** Whether a string contains a dash. *)
Fixpoint hasDash (s : string) : bool :=
  match s with
  | EmptyString => false
  | String c r => Ascii.eqb c "-"%char || hasDash r
  end.

(** The instance [handleAddField] builds from a template and a timestamp
    when the list has [n] entries. *)
Definition addedField (n : nat) (c : Field * N) : Field :=
  mkField (id c.1 +:+ "-" +:+ pretty c.2)
          (type c.1)
          (label c.1 +:+ " " +:+ pretty (n + 1)%nat)
          (className c.1).

(** Only the rendered list items can be dragged: a drag event of the page
    carries the id of an instance of the list. *)
Definition draggable (s : State) (e : Page.Event) : bool :=
  match e with
  | Page.DragStart x => bool_decide (x ∈ ids (fields s))
  | Page.DragEnd event => bool_decide (active event ∈ ids (fields s))
  | _ => true
  end.

(** A trace all of whose drag events carry the id of an instance of the
    list at the time (as far as the trace runs). *)
Fixpoint admissible (s : State) (es : list Page.Event) : bool :=
  match es with
  | [] => true
  | e :: es =>
      draggable s e &&
      match Page.step s e with
      | Ok s' => admissible s' es
      | TypeError => true
      end
  end.

(** The events that only concern the drag or the edit session. *)
Definition sessionEvent (e : Page.Event) : bool :=
  match e with
  | Page.DragEnd _ | Page.AddField _ _ | Page.SaveEdit => false
  | _ => true
  end.

(** A list the palette builds with three clicks at times 1, 2 and 3. *)
Definition sample : list Field :=
  [ mkField "text-1" text "Text Field 1" None;
    mkField "date-2" date "Date Field 2" None;
    mkField "textarea-3" textarea "Textarea Field 3" None ].

Definition sampleState : State :=
  mkState (defined sample) None "" text "" false None.

(** ** Facts about the array operations *)

Section array_facts.
Context {T : Type}.
Implicit Types (l : list T) (x : T).

Lemma length_insertAt j x l : length (insertAt j x l) = S (length l).
Proof.
  unfold insertAt. rewrite length_app. simpl.
  rewrite length_take, length_drop. lia.
Qed.

Lemma insertAt_lookup j x l :
  (j ≤ length l)%nat → insertAt j x l !! j = Some x.
Proof.
  intros Hj. unfold insertAt.
  rewrite lookup_app_r by (rewrite length_take; lia).
  rewrite length_take.
  replace (j - j `min` length l)%nat with 0%nat by lia. done.
Qed.

Lemma delete_insertAt j x l :
  (j ≤ length l)%nat → delete j (insertAt j x l) = l.
Proof.
  intros Hj. unfold insertAt.
  rewrite delete_take_drop.
  rewrite take_app_length' by (rewrite length_take; lia).
  replace (S j) with (j + 1)%nat by lia.
  rewrite drop_app_add' by (rewrite length_take; lia).
  simpl. rewrite drop_0. apply take_drop.
Qed.

Lemma insertAt_delete j x l :
  l !! j = Some x → insertAt j x (delete j l) = l.
Proof.
  intros Hx. unfold insertAt.
  pose proof (lookup_lt_Some _ _ _ Hx) as Hlt.
  rewrite delete_take_drop.
  rewrite take_app_length' by (rewrite length_take; lia).
  rewrite drop_app_length' by (rewrite length_take; lia).
  by apply take_drop_middle.
Qed.

Lemma insertAt_Permutation j x l : insertAt j x l ≡ₚ x :: l.
Proof.
  unfold insertAt. rewrite <- Permutation_middle. by rewrite take_drop.
Qed.

(** [splice] neither loses nor invents elements. *)
Lemma splice_Permutation l start d items :
  (splice l start d items).1 ++ (splice l start d items).2 ≡ₚ items ++ l.
Proof.
  unfold splice; simpl.
  set (n := Z.to_nat _). set (s := Z.to_nat _).
  assert (l = take s l ++ take n (drop s l) ++ drop (s + n) l) as Hl.
  { rewrite <- (take_drop s l) at 1. f_equal.
    rewrite <- (take_drop n (drop s l)) at 1. f_equal.
    rewrite drop_drop. f_equal; lia. }
  transitivity (items ++ take s l ++ take n (drop s l) ++ drop (s + n) l);
    [|by rewrite <- Hl].
  rewrite !app_assoc. apply Permutation_app_tail.
  rewrite <- app_assoc, (Permutation_app_comm (take n _)).
  apply Permutation_app_tail, Permutation_app_comm.
Qed.

Lemma splice_removed_length l start d items :
  (length (splice l start d items).1 ≤ Z.to_nat (Z.max d 0))%nat.
Proof. unfold splice; simpl. rewrite length_take. lia. Qed.

(** Removing the element at a valid index. *)
Lemma splice_remove_at l (i : nat) x :
  l !! i = Some x → splice l (Z.of_nat i) 1 [] = ([x], delete i l).
Proof.
  intros Hx. pose proof (lookup_lt_Some _ _ _ Hx) as Hlt.
  unfold splice.
  replace (Z.of_nat i <? 0) with false by (symmetry; apply Z.ltb_ge; lia).
  replace (Z.to_nat (Z.of_nat i `min` Z.of_nat (length l))) with i by lia.
  replace (Z.to_nat ((1 `max` 0) `min` (Z.of_nat (length l) - Z.of_nat i `min` Z.of_nat (length l))))
    with 1%nat by lia.
  f_equal.
  - rewrite (drop_S l x i Hx). done.
  - rewrite delete_take_drop. simpl. by rewrite Nat.add_1_r.
Qed.

(** Inserting at an index within the array. *)
Lemma splice_insert_at l (j : nat) x :
  (j ≤ length l)%nat → (splice l (Z.of_nat j) 0 [x]).2 = insertAt j x l.
Proof.
  intros Hj. unfold splice, insertAt; simpl.
  replace (Z.of_nat j <? 0) with false by (symmetry; apply Z.ltb_ge; lia).
  replace (Z.to_nat (Z.of_nat j `min` Z.of_nat (length l))) with j by lia.
  do 3 f_equal. lia.
Qed.
End array_facts.

Section arrayMove_facts.
Context {A : Type}.
Implicit Types (l : list (option A)) (x : option A).

(** Between two valid indices the move takes the element out and puts
    it back at the target index. *)
Lemma arrayMove_in_range l (i j : nat) x :
  l !! i = Some x → (j < length l)%nat →
  arrayMove l (Z.of_nat i) (Z.of_nat j) = insertAt j x (delete i l).
Proof.
  intros Hx Hj. unfold arrayMove.
  replace (Z.of_nat j <? 0) with false by (symmetry; apply Z.ltb_ge; lia).
  rewrite (splice_remove_at l i x Hx). simpl.
  apply splice_insert_at.
  rewrite length_delete by eauto. lia.
Qed.

Lemma splice_removed_one l from :
  l ≠ [] → from < Z.of_nat (length l) →
  ∃ x, (splice l from 1 []).1 = [x].
Proof.
  intros Hne Hlt. unfold splice; simpl.
  assert (0 < length l)%nat as Hpos by (destruct l; [done | simpl; lia]).
  set (s := Z.to_nat (if from <? 0 then _ else _)).
  assert (s < length l)%nat as Hs.
  { subst s. destruct (Z.ltb_spec from 0); lia. }
  destruct (lookup_lt_is_Some_2 l s Hs) as [x Hx].
  exists x. rewrite (drop_S l x s Hx).
  replace (Z.to_nat _) with 1%nat; [done|].
  destruct (Z.ltb_spec from 0); lia.
Qed.

(** Whatever the indices, [arrayMove] keeps every element; when it finds
    nothing to take out it puts an [undefined] in. *)
Lemma arrayMove_Permutation_gen l from to :
  arrayMove l from to ≡ₚ l ∨ arrayMove l from to ≡ₚ None :: l.
Proof.
  unfold arrayMove.
  pose proof (splice_Permutation l from 1 []) as Hp.
  pose proof (splice_removed_length l from 1 []) as Hlen.
  destruct (splice l from 1 []) as [removed l1]. simpl in Hp, Hlen.
  set (start := if to <? 0 then _ else _).
  set (item := default None (removed !! 0%nat)).
  pose proof (splice_Permutation l1 start 0 [item]) as Hq.
  pose proof (splice_removed_length l1 start 0 [item]) as Hlen'.
  destruct (splice l1 start 0 [item]) as [removed' l2]. simpl in *.
  destruct removed' as [|? ?]; [|simpl in Hlen'; lia]. simpl in Hq.
  destruct removed as [|x [|? ?]]; [| |simpl in Hlen; lia].
  - right. simpl in Hp. subst item. simpl. by rewrite Hq, Hp.
  - left. subst item. simpl. by rewrite Hq, <- Hp.
Qed.

Lemma arrayMove_Permutation l from to :
  l ≠ [] → from < Z.of_nat (length l) → arrayMove l from to ≡ₚ l.
Proof.
  intros Hne Hlt. unfold arrayMove.
  destruct (splice_removed_one l from Hne Hlt) as [x Hx].
  pose proof (splice_Permutation l from 1 []) as Hp.
  destruct (splice l from 1 []) as [removed l1]. simpl in Hp, Hx. subst removed.
  change (default None ([x] !! 0%nat)) with x.
  set (start := if to <? 0 then _ else _).
  pose proof (splice_Permutation l1 start 0 [x]) as Hq.
  pose proof (splice_removed_length l1 start 0 [x]) as Hlen'.
  destruct (splice l1 start 0 [x]) as [removed' l2]. simpl in *.
  destruct removed' as [|? ?]; [|simpl in Hlen'; lia]. simpl in Hq.
  by rewrite Hq, <- Hp.
Qed.
End arrayMove_facts.

(** ** Lookups in a well-typed array *)

Lemma lookupId_Some x l i f :
  lookupId x l = Some (i, f) → l !! i = Some f ∧ id f = x.
Proof. unfold lookupId. by intros (? & ? & ?)%list_find_Some. Qed.

Lemma lookupId_None x l : lookupId x l = None ↔ x ∉ id <$> l.
Proof.
  unfold lookupId. rewrite list_find_None, Forall_forall, list_elem_of_fmap.
  split.
  - intros Hall (f & -> & Hf). by apply (Hall f).
  - intros Hno f Hf Heq. apply Hno. by exists f.
Qed.

Lemma lookupId_is_Some x l : x ∈ id <$> l → is_Some (lookupId x l).
Proof.
  intros Hin. destruct (lookupId x l) eqn:E; [eauto|].
  by apply lookupId_None in E.
Qed.

(** With distinct ids every instance is the one its id designates. *)
Lemma lookupId_NoDup l i f :
  NoDup (id <$> l) → l !! i = Some f → lookupId (id f) l = Some (i, f).
Proof.
  intros Hnd Hf. unfold lookupId. apply list_find_Some.
  split_and!; [done..|].
  intros j g Hg Hlt Heq.
  assert (j = i); [|lia].
  eapply (NoDup_lookup _ j i (id f) Hnd); rewrite list_lookup_fmap.
  - by rewrite Hg; simpl; rewrite Heq.
  - by rewrite Hf.
Qed.

Lemma findIndexFrom_defined x l k :
  findIndexFrom (idIs (Some x)) (defined l) k
  = Ok (match lookupId x l with
        | Some (i, _) => k + Z.of_nat i
        | None => -1
        end).
Proof.
  unfold lookupId, defined. revert k.
  induction l as [|f l IH]; intros k; [done|].
  cbn [fmap list_fmap findIndexFrom idIs list_find mbind result_bind].
  destruct (decide (id f = x)) as [->|Hne].
  - rewrite bool_decide_eq_true_2 by done. f_equal; lia.
  - rewrite bool_decide_eq_false_2 by congruence.
    rewrite IH. destruct (list_find _ l) as [[i g]|]; simpl; [|done].
    f_equal; lia.
Qed.

Lemma findIndex_defined x l :
  findIndex (idIs (Some x)) (defined l) = Ok (indexZ (lookupId x l)).
Proof.
  unfold findIndex. rewrite findIndexFrom_defined.
  by destruct (lookupId x l) as [[i g]|].
Qed.

Lemma findIndex_null l : findIndex (idIs None) (defined l) = Ok (-1).
Proof.
  unfold findIndex, defined. generalize 0.
  induction l as [|f l IH]; intros k; [done|]. simpl. apply IH.
Qed.

Lemma find_defined x l :
  find (idIs (Some x)) (defined l) = Ok (Some ∘ snd <$> lookupId x l).
Proof.
  unfold lookupId, defined.
  induction l as [|f l IH]; [done|].
  cbn [fmap list_fmap find idIs list_find mbind result_bind].
  destruct (decide (id f = x)) as [->|Hne].
  - by rewrite bool_decide_eq_true_2.
  - rewrite bool_decide_eq_false_2 by congruence.
    rewrite IH. by destruct (list_find _ l) as [[i g]|].
Qed.

Lemma mapR_defined (e : option string) (g : Field → Field) l :
  mapR (λ f : slot, b ← idIs e f; Ok (if (b : bool) then g <$> f else f)) (defined l)
  = Ok (defined ((λ f, if bool_decide (Some (id f) = e) then g f else f) <$> l)).
Proof.
  unfold defined. induction l as [|f l IH]; [done|].
  cbn [fmap list_fmap mapR idIs mbind result_bind]. rewrite IH. simpl.
  by destruct (bool_decide _).
Qed.

Lemma defined_insertAt j a l :
  defined (insertAt j a l) = insertAt j (Some a) (defined l).
Proof.
  unfold defined, insertAt. by rewrite fmap_app, fmap_cons, fmap_take, fmap_drop.
Qed.

Lemma defined_delete i l : defined (delete i l) = delete i (defined l).
Proof. unfold defined. by rewrite list_fmap_delete. Qed.


(** ** The drop handlers on a well-typed list *)

Lemma Page_handleDragEnd_defined s l ev :
  fields s = defined l →
  Page.handleDragEnd s ev
  = Ok (match over ev with
        | None => setActiveId None s
        | Some o =>
            if bool_decide (active ev ≠ o) then
              setFields (arrayMove (defined l)
                           (indexZ (lookupId (active ev) l))
                           (indexZ (lookupId o l)))
                        (setActiveId None s)
            else setActiveId None s
        end).
Proof.
  intros Hl. unfold Page.handleDragEnd.
  destruct (over ev) as [o|]; [|done].
  destruct (bool_decide (active ev ≠ o)); [|done].
  cbn [fields setActiveId]. rewrite Hl, !findIndex_defined. done.
Qed.

Lemma Static_handleDragEnd_defined s l ev :
  fields s = defined l →
  Static.handleDragEnd s ev
  = Ok (match over ev with
        | None => setActiveId None s
        | Some o =>
            if bool_decide (active ev ≠ o) then
              match lookupId (active ev) l, lookupId o l with
              | Some (i, _), Some (j, _) =>
                  setFields (arrayMove (defined l) (Z.of_nat i) (Z.of_nat j))
                            (setActiveId None s)
              | _, _ => setActiveId None s
              end
            else setActiveId None s
        end).
Proof.
  intros Hl. unfold Static.handleDragEnd.
  destruct (over ev) as [o|].
  - destruct (decide (active ev = o)) as [->|Hne].
    + rewrite !bool_decide_eq_false_2 by (intros ?; congruence). done.
    + rewrite !bool_decide_eq_true_2 by congruence.
      cbn [fields setActiveId]. rewrite Hl, !findIndex_defined.
      destruct (lookupId (active ev) l) as [[i a]|],
               (lookupId o l) as [[j b]|];
        cbn [indexZ mbind result_bind];
        rewrite ?(bool_decide_eq_false_2 (-1 ≠ -1)) by (intros ?; done);
        rewrite ?andb_false_r; try done.
      rewrite !bool_decide_eq_true_2 by lia. done.
  - rewrite bool_decide_eq_true_2 by done.
    cbn [fields setActiveId]. rewrite Hl, findIndex_defined, findIndex_null.
    cbn [indexZ mbind result_bind].
    rewrite (bool_decide_eq_false_2 (-1 ≠ -1)) by (intros ?; done).
    by rewrite andb_false_r.
Qed.

(** Both handlers, when the dragged and the target instance are in the
    list and differ: the dragged one is taken out and put at the target's
    index. *)
Lemma handleDragEnd_found s l ev o i j a b :
  fields s = defined l →
  over ev = Some o →
  lookupId (active ev) l = Some (i, a) →
  lookupId o l = Some (j, b) →
  active ev ≠ o →
  let s' := setFields (defined (insertAt j a (delete i l))) (setActiveId None s) in
  Page.handleDragEnd s ev = Ok s' ∧ Static.handleDragEnd s ev = Ok s'.
Proof.
  intros Hl Ho Ha Hb Hne s'.
  destruct (lookupId_Some _ _ _ _ Ha) as [Hia _].
  destruct (lookupId_Some _ _ _ _ Hb) as [Hjb _].
  pose proof (lookup_lt_Some _ _ _ Hjb) as Hj.
  assert (arrayMove (defined l) (Z.of_nat i) (Z.of_nat j)
          = defined (insertAt j a (delete i l))) as Hmove.
  { rewrite (arrayMove_in_range _ i j (Some a)).
    - by rewrite defined_insertAt, defined_delete.
    - unfold defined. by rewrite list_lookup_fmap, Hia.
    - unfold defined. by rewrite length_fmap. }
  split.
  - rewrite (Page_handleDragEnd_defined s l ev Hl), Ho.
    rewrite bool_decide_eq_true_2 by done.
    rewrite Ha, Hb. cbn [indexZ]. by rewrite Hmove.
  - rewrite (Static_handleDragEnd_defined s l ev Hl), Ho.
    rewrite bool_decide_eq_true_2 by done.
    rewrite Ha, Hb. by rewrite Hmove.
Qed.

(** A drop onto the dragged instance itself changes no field. *)
Lemma handleDragEnd_same s ev :
  over ev = Some (active ev) →
  Page.handleDragEnd s ev = Ok (setActiveId None s)
  ∧ Static.handleDragEnd s ev = Ok (setActiveId None s).
Proof.
  intros Ho. unfold Page.handleDragEnd, Static.handleDragEnd. rewrite Ho.
  rewrite !bool_decide_eq_false_2 by (intros ?; congruence). done.
Qed.

(** Moving an instance of a list with distinct ids to index [i], and what
    moving it back needs. *)
Lemma move_there (l : list Field) i j a :
  NoDup (id <$> l) → l !! j = Some a → (i < length l)%nat →
  let l1 := insertAt i a (delete j l) in
  NoDup (id <$> l1) ∧ l1 !! i = Some a ∧ length l1 = length l
  ∧ insertAt j a (delete i l1) = l.
Proof.
  intros Hnd Ha Hi l1.
  pose proof (lookup_lt_Some _ _ _ Ha) as Hj.
  assert (length (delete j l) = (length l - 1)%nat) as Hlen
    by (apply length_delete; eauto).
  assert (l1 ≡ₚ l) as Hperm.
  { unfold l1. rewrite insertAt_Permutation. symmetry. by apply delete_Permutation. }
  split_and!.
  - by rewrite Hperm.
  - apply insertAt_lookup. lia.
  - unfold l1. rewrite length_insertAt. lia.
  - unfold l1. rewrite delete_insertAt by lia. by apply insertAt_delete.
Qed.

Lemma defined_Permutation_inv (fs : list slot) l :
  fs ≡ₚ defined l → ∃ l', fs = defined l' ∧ l' ≡ₚ l.
Proof.
  intros Hp. exists (omap (λ f, f) fs). split.
  - assert (Forall is_Some fs) as Hall.
    { rewrite Hp. unfold defined. apply Forall_fmap, Forall_true. by eauto. }
    clear Hp. unfold defined.
    induction Hall as [|f fs [g ->] _ IH]; [done|]. cbn. by f_equal.
  - rewrite Hp. unfold defined. clear Hp.
    induction l as [|f l IH]; [done|]. cbn. by constructor.
Qed.

(** The fixed-list page never changes the list when the dragged id is not in it. *)
Lemma Static_drop_unknown_active s l ev :
  fields s = defined l → active ev ∉ id <$> l →
  Static.handleDragEnd s ev = Ok (setActiveId None s).
Proof.
  intros Hl Hno. rewrite (Static_handleDragEnd_defined s l ev Hl).
  apply lookupId_None in Hno. rewrite Hno.
  destruct (over ev); [|done]. by destruct (bool_decide _).
Qed.

(** The fixed-list page only ever permutes the list. *)
Lemma Static_drop_Permutation s l ev :
  fields s = defined l →
  ∃ s' l', Static.handleDragEnd s ev = Ok s'
           ∧ fields s' = defined l' ∧ l' ≡ₚ l.
Proof.
  intros Hl. rewrite (Static_handleDragEnd_defined s l ev Hl).
  destruct (over ev) as [o|]; [|by exists (setActiveId None s), l].
  destruct (bool_decide _); [|by exists (setActiveId None s), l].
  destruct (lookupId (active ev) l) as [[i a]|] eqn:Ha;
    [|by exists (setActiveId None s), l].
  destruct (lookupId o l) as [[j b]|] eqn:Hb;
    [|by exists (setActiveId None s), l].
  destruct (lookupId_Some _ _ _ _ Ha) as [Hia _].
  destruct (lookupId_Some _ _ _ _ Hb) as [Hjb _].
  eexists _, (insertAt j a (delete i l)). split_and!; [done| |].
  - cbn [fields setFields].
    rewrite (arrayMove_in_range _ i j (Some a)).
    + by rewrite defined_insertAt, defined_delete.
    + unfold defined. by rewrite list_lookup_fmap, Hia.
    + unfold defined. rewrite length_fmap. by eapply lookup_lt_Some.
  - rewrite insertAt_Permutation. symmetry. by apply delete_Permutation.
Qed.

(** [page.tsx] permutes a list that is not empty, whatever the ids. *)
Lemma Page_drop_Permutation_nonempty s l ev :
  fields s = defined l → l ≠ [] →
  ∃ s' l', Page.handleDragEnd s ev = Ok s'
           ∧ fields s' = defined l' ∧ l' ≡ₚ l.
Proof.
  intros Hl Hne. rewrite (Page_handleDragEnd_defined s l ev Hl).
  destruct (over ev) as [o|]; [|by exists (setActiveId None s), l].
  destruct (bool_decide _); [|by exists (setActiveId None s), l].
  set (from := indexZ _). set (to := indexZ _).
  assert (from < Z.of_nat (length (defined l))) as Hfrom.
  { subst from. unfold defined. rewrite length_fmap.
    destruct (lookupId (active ev) l) as [[i a]|] eqn:Ha; simpl.
    - apply lookupId_Some in Ha as [Ha%lookup_lt_Some _]. lia.
    - destruct l; [done|simpl; lia]. }
  assert (defined l ≠ []) as Hne' by (by destruct l).
  destruct (defined_Permutation_inv _ l
              (arrayMove_Permutation (defined l) from to Hne' Hfrom))
    as (l' & Hl' & Hperm).
  by eexists _, l'.
Qed.

(** [page.tsx] with a dragged id that is not in the list: the last
    instance is the one that moves. *)
Lemma Page_drop_unknown_active s l0 z ev o j b :
  fields s = defined (l0 ++ [z]) →
  active ev ∉ id <$> (l0 ++ [z]) →
  over ev = Some o →
  lookupId o (l0 ++ [z]) = Some (j, b) →
  Page.handleDragEnd s ev
  = Ok (setFields (defined (insertAt j z l0)) (setActiveId None s)).
Proof.
  intros Hl Hno Ho Hb.
  rewrite (Page_handleDragEnd_defined s _ ev Hl), Ho.
  assert (active ev ≠ o) as Hne.
  { intros Heq. apply Hno. rewrite Heq.
    apply lookupId_Some in Hb as [Hb <-].
    apply list_elem_of_fmap. exists b. split; [done|].
    by eapply list_elem_of_lookup_2. }
  rewrite bool_decide_eq_true_2 by done.
  apply lookupId_None in Hno. rewrite Hno, Hb. cbn [indexZ].
  apply lookupId_Some in Hb as [Hb%lookup_lt_Some _].
  rewrite length_app in Hb. simpl in Hb.
  do 2 f_equal. unfold arrayMove.
  replace (Z.of_nat j <? 0) with false by (symmetry; apply Z.ltb_ge; lia).
  assert (splice (defined (l0 ++ [z])) (-1) 1 [] = ([Some z], defined l0)) as ->.
  { unfold splice, defined. rewrite length_fmap, length_app. simpl.
    replace (Z.to_nat ((Z.of_nat (length l0 + 1) + -1) `max` 0))
      with (length l0) by lia.
    set (d := Z.to_nat ((1 `max` 0) `min` _)).
    assert (d = 1%nat) as -> by (subst d; lia).
    rewrite fmap_app.
    rewrite drop_app_length' by (by rewrite length_fmap).
    rewrite take_app_length' by (by rewrite length_fmap).
    rewrite drop_ge by (rewrite length_app, length_fmap; simpl; lia).
    by rewrite app_nil_r. }
  cbn [default lookup list_lookup].
  rewrite splice_insert_at by (unfold defined; rewrite length_fmap; lia).
  by rewrite defined_insertAt.
Qed.

(** ** Reordering *)

(** C4: when the list holds the dragged instance and a different drop
    target, the drop (in both pages) relocates one element: the dragged
    instance ends at the index the target occupied, and taking it out of the
    new list leaves exactly the old list without it, so every other instance
    is unchanged and keeps its relative order. *)
Theorem drop_relocates_dragged_instance s l ev o i j a b :
  fields s = defined l →
  over ev = Some o →
  lookupId (active ev) l = Some (i, a) →
  lookupId o l = Some (j, b) →
  active ev ≠ o →
  ∃ l', Page.handleDragEnd s ev = Ok (setFields (defined l') (setActiveId None s))
      ∧ Static.handleDragEnd s ev = Ok (setFields (defined l') (setActiveId None s))
      ∧ l' !! j = Some a
      ∧ delete j l' = delete i l
      ∧ length l' = length l.
Proof.
  intros Hl Ho Ha Hb Hne.
  destruct (handleDragEnd_found s l ev o i j a b Hl Ho Ha Hb Hne) as [HP HS].
  apply lookupId_Some in Ha as [Ha _].
  apply lookupId_Some in Hb as [Hb%lookup_lt_Some _].
  pose proof (length_delete l i (mk_is_Some _ _ Ha)) as Hlen.
  exists (insertAt j a (delete i l)). split_and!; [done..| | |].
  - apply insertAt_lookup. lia.
  - apply delete_insertAt. lia.
  - rewrite length_insertAt. lia.
Qed.

Lemma drop_relocates_dragged_instance_witness :
  ∃ l', Page.handleDragEnd sampleState (mkDragEnd "text-1" (Some "textarea-3"))
        = Ok (setFields (defined l') (setActiveId None sampleState))
      ∧ Static.handleDragEnd sampleState (mkDragEnd "text-1" (Some "textarea-3"))
        = Ok (setFields (defined l') (setActiveId None sampleState))
      ∧ l' !! 2%nat = Some (mkField "text-1" text "Text Field 1" None)
      ∧ delete 2%nat l' = delete 0%nat sample
      ∧ length l' = length sample.
Proof.
  apply (drop_relocates_dragged_instance sampleState sample
           (mkDragEnd "text-1" (Some "textarea-3")) "textarea-3" 0 2
           (mkField "text-1" text "Text Field 1" None)
           (mkField "textarea-3" textarea "Textarea Field 3" None));
    [reflexivity | reflexivity | reflexivity | reflexivity | discriminate].
Defined.

(** One reorder and the reorder back, for either page's handler. *)
Section there_and_back.
Variable handleDragEnd : State → DragEndEvent → result State.
Hypothesis handler_found : ∀ s l ev o i j a b,
  fields s = defined l → over ev = Some o →
  lookupId (active ev) l = Some (i, a) → lookupId o l = Some (j, b) →
  active ev ≠ o →
  handleDragEnd s ev
  = Ok (setFields (defined (insertAt j a (delete i l))) (setActiveId None s)).
Hypothesis handler_same : ∀ s ev,
  over ev = Some (active ev) → handleDragEnd s ev = Ok (setActiveId None s).

Lemma there_and_back s l i j a b :
  NoDup (id <$> l) → fields s = defined l →
  l !! j = Some a → l !! i = Some b →
  ∃ s1 c s2,
    handleDragEnd s (mkDragEnd (id a) (Some (id b))) = Ok s1
    ∧ fields s1 !! i = Some (Some a)
    ∧ fields s1 !! j = Some (Some c)
    ∧ handleDragEnd s1 (mkDragEnd (id a) (Some (id c))) = Ok s2
    ∧ fields s2 = fields s.
Proof.
  intros Hnd Hl Ha Hb.
  destruct (decide (i = j)) as [->|Hij].
  - assert (b = a) as -> by congruence.
    exists (setActiveId None s), a, (setActiveId None (setActiveId None s)).
    assert (fields s !! j = Some (Some a)) as Hsj.
    { rewrite Hl. unfold defined. by rewrite list_lookup_fmap, Ha. }
    split_and!; [by apply handler_same|done|done|by apply handler_same|done].
  - pose proof (lookup_lt_Some _ _ _ Ha) as Hj.
    pose proof (lookup_lt_Some _ _ _ Hb) as Hi.
    assert (id a ≠ id b) as Hne.
    { intros Heq. apply Hij.
      eapply (NoDup_lookup _ i j (id a) Hnd); rewrite list_lookup_fmap.
      - by rewrite Hb; simpl; rewrite Heq.
      - by rewrite Ha. }
    destruct (move_there l i j a Hnd Ha Hi) as (Hnd1 & Hia & Hlen & Hback).
    set (l1 := insertAt i a (delete j l)) in *.
    destruct (lookup_lt_is_Some_2 l1 j) as [c Hc]; [lia|].
    assert (id a ≠ id c) as Hne'.
    { intros Heq. apply Hij.
      eapply (NoDup_lookup _ i j (id a) Hnd1); rewrite list_lookup_fmap.
      - by rewrite Hia.
      - by rewrite Hc; simpl; rewrite Heq. }
    exists (setFields (defined l1) (setActiveId None s)), c,
           (setFields (defined l) (setActiveId None (setFields (defined l1) (setActiveId None s)))).
    split_and!.
    + apply (handler_found s l _ (id b) j i a b); try done.
      all: by apply lookupId_NoDup.
    + cbn. unfold defined. by rewrite list_lookup_fmap, Hia.
    + cbn. unfold defined. by rewrite list_lookup_fmap, Hc.
    + rewrite <- Hback at 1.
      apply (handler_found _ l1 _ (id c) i j a c); try done.
      all: by apply lookupId_NoDup.
    + done.
Qed.
End there_and_back.

(** C9 as stated fails on a list in which two instances share an id, such
    as the one two same-millisecond adds of a template build.  Dropping the
    first "text-5" (index 0) onto "date-6" (index 2) moves it last; the drop
    back onto what now sits at index 0 is a drop onto the other "text-5",
    whose id equals the dragged id, so neither page moves anything and the
    original order is not restored. *)
Lemma reorder_back_fails_with_shared_id :
  let l0 := [ Some (mkField "text-5" text "Text Field 1" None);
              Some (mkField "text-5" text "Text Field 2" None);
              Some (mkField "date-6" date "Date Field 3" None) ] in
  let l1 := [ Some (mkField "text-5" text "Text Field 2" None);
              Some (mkField "date-6" date "Date Field 3" None);
              Some (mkField "text-5" text "Text Field 1" None) ] in
  let s0 := mkState l0 None "" text "" false None in
  let s1 := mkState l1 None "" text "" false None in
  Page.run Page.init
    [ Page.AddField (mkField "text" text "Text Field" None) 5;
      Page.AddField (mkField "text" text "Text Field" None) 5;
      Page.AddField (mkField "date" date "Date Field" None) 6 ] = Ok s0
  ∧ Page.handleDragEnd s0 (mkDragEnd "text-5" (Some "date-6")) = Ok s1
  ∧ Static.handleDragEnd s0 (mkDragEnd "text-5" (Some "date-6")) = Ok s1
  ∧ l1 !! 0%nat = Some (Some (mkField "text-5" text "Text Field 2" None))
  ∧ Page.handleDragEnd s1 (mkDragEnd "text-5" (Some "text-5")) = Ok s1
  ∧ Static.handleDragEnd s1 (mkDragEnd "text-5" (Some "text-5")) = Ok s1
  ∧ fields s1 ≠ fields s0.
Proof.
  intros l0 l1 s0 s1.
  split_and!; [reflexivity | reflexivity | reflexivity | reflexivity
              | reflexivity | reflexivity | discriminate].
Qed.

(** C9, amended: in a list whose ids are pairwise distinct, dropping the
    instance that sits at index [j] onto the instance at any valid index [i]
    and then dropping it onto whatever now sits at index [j] gives back the
    original list, in both pages. *)
Theorem reorder_inverse_law s l i j a b :
  NoDup (id <$> l) →
  fields s = defined l →
  l !! j = Some a →
  l !! i = Some b →
  (∃ s1 c s2,
      Page.handleDragEnd s (mkDragEnd (id a) (Some (id b))) = Ok s1
      ∧ fields s1 !! i = Some (Some a)
      ∧ fields s1 !! j = Some (Some c)
      ∧ Page.handleDragEnd s1 (mkDragEnd (id a) (Some (id c))) = Ok s2
      ∧ fields s2 = fields s)
  ∧ (∃ s1 c s2,
      Static.handleDragEnd s (mkDragEnd (id a) (Some (id b))) = Ok s1
      ∧ fields s1 !! i = Some (Some a)
      ∧ fields s1 !! j = Some (Some c)
      ∧ Static.handleDragEnd s1 (mkDragEnd (id a) (Some (id c))) = Ok s2
      ∧ fields s2 = fields s).
Proof.
  intros Hnd Hl Ha Hb. split.
  - apply (there_and_back Page.handleDragEnd) with (l := l); try done.
    + intros s' l' ev o i' j' a' b' H1 H2 H3 H4 H5.
      exact (proj1 (handleDragEnd_found s' l' ev o i' j' a' b' H1 H2 H3 H4 H5)).
    + intros s' ev Ho. exact (proj1 (handleDragEnd_same s' ev Ho)).
  - apply (there_and_back Static.handleDragEnd) with (l := l); try done.
    + intros s' l' ev o i' j' a' b' H1 H2 H3 H4 H5.
      exact (proj2 (handleDragEnd_found s' l' ev o i' j' a' b' H1 H2 H3 H4 H5)).
    + intros s' ev Ho. exact (proj2 (handleDragEnd_same s' ev Ho)).
Qed.

Lemma reorder_inverse_law_witness :
  let a := mkField "text-1" text "Text Field 1" None in
  let b := mkField "textarea-3" textarea "Textarea Field 3" None in
  (∃ s1 c s2,
      Page.handleDragEnd sampleState (mkDragEnd (id a) (Some (id b))) = Ok s1
      ∧ fields s1 !! 2%nat = Some (Some a)
      ∧ fields s1 !! 0%nat = Some (Some c)
      ∧ Page.handleDragEnd s1 (mkDragEnd (id a) (Some (id c))) = Ok s2
      ∧ fields s2 = fields sampleState)
  ∧ (∃ s1 c s2,
      Static.handleDragEnd sampleState (mkDragEnd (id a) (Some (id b))) = Ok s1
      ∧ fields s1 !! 2%nat = Some (Some a)
      ∧ fields s1 !! 0%nat = Some (Some c)
      ∧ Static.handleDragEnd s1 (mkDragEnd (id a) (Some (id c))) = Ok s2
      ∧ fields s2 = fields sampleState).
Proof.
  intros a b.
  apply (reorder_inverse_law sampleState sample 2 0 a b);
    [apply (bool_decide_unpack _); vm_compute; reflexivity
    | reflexivity | reflexivity | reflexivity].
Defined.

(** C2, on [page.tsx]: the handler does not check that [findIndex] found
    the dragged id.  With [oldIndex = -1], [arrayMove] takes the last
    element out and puts it at the target's index, so a drop whose dragged
    id is not in the list still rearranges the list. *)
Theorem Page_drop_unknown_active_moves_last :
  ("ghost" ∉ id <$> sample)
  ∧ Page.handleDragEnd sampleState (mkDragEnd "ghost" (Some "text-1"))
    = Ok (mkState
            [ Some (mkField "textarea-3" textarea "Textarea Field 3" None);
              Some (mkField "text-1" text "Text Field 1" None);
              Some (mkField "date-2" date "Date Field 2" None) ]
            None "" text "" false None)
  ∧ Static.handleDragEnd sampleState (mkDragEnd "ghost" (Some "text-1"))
    = Ok sampleState.
Proof.
  split_and!; [|reflexivity..].
  apply (bool_decide_unpack _). vm_compute. reflexivity.
Qed.

(** C10, on [page.tsx]: on the empty list a drop of an id onto another id
    (neither can be in the list) makes [arrayMove] find nothing to take out
    and insert [undefined]: the list grows from length 0 to length 1 and
    holds a slot that is no field instance.  The fixed-list page leaves the
    list empty. *)
Theorem Page_drop_on_empty_list_inserts_undefined :
  Page.handleDragEnd Page.init (mkDragEnd "ghost" (Some "form-area"))
  = Ok (mkState [None] None "" text "" false None)
  ∧ Static.handleDragEnd Page.init (mkDragEnd "ghost" (Some "form-area"))
    = Ok Page.init.
Proof. split; reflexivity. Qed.

(** ** Adding *)

Lemma handleAddField_full s fieldType now :
  (Page.MAX_FIELDS ≤ length (fields s))%nat →
  Page.handleAddField s fieldType now = (s, ["Maximum of 10 fields reached"]).
Proof.
  intros Hfull. unfold Page.handleAddField.
  by rewrite bool_decide_eq_true_2.
Qed.

Lemma handleAddField_length s fieldType now :
  (length (fields s) ≤ Page.MAX_FIELDS)%nat →
  (length (fields (Page.handleAddField s fieldType now).1) ≤ Page.MAX_FIELDS)%nat.
Proof.
  intros Hle. unfold Page.handleAddField.
  case_bool_decide as Hcap; [done|].
  cbn. rewrite length_app. simpl. lia.
Qed.

Lemma run_adds_length calls s :
  (length (fields s) ≤ Page.MAX_FIELDS)%nat →
  ∃ s', Page.run s ((λ c, Page.AddField c.1 c.2) <$> calls) = Ok s'
        ∧ (length (fields s') ≤ Page.MAX_FIELDS)%nat.
Proof.
  revert s. induction calls as [|[fieldType now] calls IH]; intros s Hle.
  - by exists s.
  - cbn. apply IH. by apply handleAddField_length.
Qed.

(** C1: a sequence of adds from the empty list always runs to a state whose
    list has at most [MAX_FIELDS] = 10 entries, and an add on a list that
    already has [MAX_FIELDS] entries or more returns the state as it was and
    writes one warning. *)
Theorem add_never_exceeds_MAX_FIELDS :
  Page.MAX_FIELDS = 10%nat
  ∧ (∀ calls : list (Field * N),
       ∃ s, Page.run Page.init ((λ c, Page.AddField c.1 c.2) <$> calls) = Ok s
            ∧ (length (fields s) ≤ Page.MAX_FIELDS)%nat)
  ∧ (∀ s fieldType now,
       (Page.MAX_FIELDS ≤ length (fields s))%nat →
       Page.handleAddField s fieldType now
       = (s, ["Maximum of 10 fields reached"])).
Proof.
  split_and!.
  - done.
  - intros calls. apply run_adds_length. cbn. unfold Page.MAX_FIELDS. lia.
  - apply handleAddField_full.
Qed.

Lemma add_never_exceeds_MAX_FIELDS_witness :
  let full := mkState (replicate 10 (Some (mkField "text-1" text "Text Field 1" None)))
                      None "" text "" false None in
  Page.handleAddField full (mkField "date" date "Date Field" None) 7%N
  = (full, ["Maximum of 10 fields reached"]).
Proof.
  intros full.
  apply (proj2 (proj2 add_never_exceeds_MAX_FIELDS) full).
  vm_compute. reflexivity.
Defined.

Lemma or_else_default (c : option string) : or_else c "" = default "" c.
Proof.
  destruct c as [c|]; [|done]. simpl.
  destruct (String.eqb_spec c ""); by subst.
Qed.

(** C5: below the cap an add of a template appends exactly one instance
    after the unchanged list and writes no warning; the instance has the
    template's type, the template's label followed by a space and the
    previous length plus one, the template's className, which the widget
    shows as that class or as "w-full" when the template has none (as for
    every palette entry); its id is the template's id, a dash and the
    timestamp. *)
Theorem add_appends_one_instance s fieldType now :
  (length (fields s) < Page.MAX_FIELDS)%nat →
  ∃ f, Page.handleAddField s fieldType now = (setFields (fields s ++ [Some f]) s, [])
     ∧ id f = id fieldType +:+ "-" +:+ pretty now
     ∧ type f = type fieldType
     ∧ label f = label fieldType +:+ " " +:+ pretty (S (length (fields s)))
     ∧ className f = className fieldType
     ∧ widgetClass (fieldTypes (type f) (label f) (className f))
       = or_else (className fieldType) "w-full"
     ∧ (fieldType ∈ Page.availableFields →
        widgetClass (fieldTypes (type f) (label f) (className f)) = "w-full").
Proof.
  intros Hlt. unfold Page.handleAddField.
  rewrite bool_decide_eq_false_2 by lia.
  eexists. split; [reflexivity|]. cbn [id type label className].
  rewrite Nat.add_1_r.
  assert (∀ t l c, widgetClass (fieldTypes t l c) = or_else c "w-full") as Hw
    by (by intros []).
  split_and!; try done.
  intros Hin. rewrite Hw.
  unfold Page.availableFields in Hin.
  repeat (apply elem_of_cons in Hin as [->|Hin]; [done|]).
  by apply elem_of_nil in Hin.
Qed.

Lemma add_appends_one_instance_witness :
  ∃ f, Page.handleAddField sampleState (mkField "date" date "Date Field" None) 9%N
       = (setFields (fields sampleState ++ [Some f]) sampleState, [])
     ∧ id f = "date-9"
     ∧ type f = date
     ∧ label f = "Date Field 4"
     ∧ className f = None
     ∧ widgetClass (fieldTypes (type f) (label f) (className f)) = "w-full"
     ∧ (mkField "date" date "Date Field" None ∈ Page.availableFields →
        widgetClass (fieldTypes (type f) (label f) (className f)) = "w-full").
Proof.
  apply (add_appends_one_instance sampleState (mkField "date" date "Date Field" None) 9%N).
  vm_compute. lia.
Defined.

(** ** Editing *)

Lemma Page_handleSaveEdit_defined s l :
  fields s = defined l →
  Page.handleSaveEdit s
  = Ok (setShowModal false
         (setFields
            (defined ((λ f, if bool_decide (Some (id f) = editingId s)
                            then withDraft s f else f) <$> l)) s)).
Proof.
  intros Hl. unfold Page.handleSaveEdit. rewrite Hl.
  by rewrite (mapR_defined (editingId s) (withDraft s) l).
Qed.

(** The fixed-list page saves the same list and also resets the draft. *)
Lemma Static_handleSaveEdit_Page s :
  Static.handleSaveEdit s
  = (s' ← Page.handleSaveEdit s;
     Ok (setShowModal false
          (setEditClass ""
            (setEditType text
              (setEditLabel ""
                (setEditingId None s')))))).
Proof.
  unfold Static.handleSaveEdit, Page.handleSaveEdit.
  by destruct (mapR _ (fields s)).
Qed.

(** C6: saving keeps the list's length and order; at every index the
    instance keeps its id, and it keeps all its values unless its id is
    [editingId]; when no instance has that id the whole list is unchanged;
    in every case the modal is closed afterwards. *)
Theorem save_changes_only_the_edited_instance s l :
  fields s = defined l →
  ∃ l', Page.handleSaveEdit s = Ok (setShowModal false (setFields (defined l') s))
      ∧ length l' = length l
      ∧ (∀ i f, l !! i = Some f →
           ∃ f', l' !! i = Some f' ∧ id f' = id f
                 ∧ (Some (id f) ≠ editingId s → f' = f))
      ∧ ((∀ f, f ∈ l → Some (id f) ≠ editingId s) → l' = l)
      ∧ showModal (setShowModal false (setFields (defined l') s)) = false.
Proof.
  intros Hl. rewrite (Page_handleSaveEdit_defined s l Hl).
  eexists. split; [reflexivity|]. split_and!.
  - by rewrite length_fmap.
  - intros i f Hf. rewrite list_lookup_fmap, Hf. simpl.
    eexists. split; [reflexivity|].
    case_bool_decide as Hid; [|done]. split; [done|]. by intros [].
  - intros Hno. rewrite <- (list_fmap_id l) at 2.
    apply list_fmap_ext. intros i f Hf. simpl.
    rewrite bool_decide_eq_false_2; [done|].
    apply Hno. by eapply list_elem_of_lookup_2.
  - done.
Qed.

Lemma save_changes_only_the_edited_instance_witness :
  ∃ l', Page.handleSaveEdit sampleState
        = Ok (setShowModal false (setFields (defined l') sampleState))
      ∧ length l' = length sample
      ∧ (∀ i f, sample !! i = Some f →
           ∃ f', l' !! i = Some f' ∧ id f' = id f
                 ∧ (Some (id f) ≠ editingId sampleState → f' = f))
      ∧ ((∀ f, f ∈ sample → Some (id f) ≠ editingId sampleState) → l' = sample)
      ∧ showModal (setShowModal false (setFields (defined l') sampleState)) = false.
Proof.
  apply (save_changes_only_the_edited_instance sampleState sample). reflexivity.
Defined.

Lemma openEditModal_defined s l x :
  fields s = defined l →
  openEditModal s x
  = Ok (match lookupId x l with
        | Some (_, f) =>
            mkState (fields s) (Some x) (label f) (type f)
                    (default "" (className f)) true (activeId s)
        | None => s
        end).
Proof.
  intros Hl. unfold openEditModal. rewrite Hl, find_defined.
  destruct (lookupId x l) as [[i f]|]; [|done].
  cbn. rewrite or_else_default. destruct s; cbn in *. by subst.
Qed.

(** C8: when the id designates an instance of the list, opening sets
    [editingId] to the id, seeds the draft with the instance's label and
    type and with its className, or the empty string when it has none, and
    shows the modal, touching nothing else; when no instance has the id the
    state is unchanged; so a closed modal opens only for an id that occurs
    in the list. *)
Theorem open_seeds_draft_from_instance s l x :
  fields s = defined l →
  (∀ i f, lookupId x l = Some (i, f) →
     openEditModal s x
     = Ok (mkState (fields s) (Some x) (label f) (type f)
                   (default "" (className f)) true (activeId s)))
  ∧ (x ∉ id <$> l → openEditModal s x = Ok s)
  ∧ (∀ s', showModal s = false → openEditModal s x = Ok s' →
           showModal s' = true → x ∈ id <$> l)
  ∧ (x ∈ id <$> l → ∃ s', openEditModal s x = Ok s' ∧ showModal s' = true).
Proof.
  intros Hl. rewrite (openEditModal_defined s l x Hl). split_and!.
  - by intros i f ->.
  - intros Hno. apply lookupId_None in Hno. by rewrite Hno.
  - intros s' Hclosed Hopen Hshown.
    destruct (lookupId x l) as [[i f]|] eqn:Hx.
    + apply lookupId_Some in Hx as [Hf <-].
      apply list_elem_of_fmap. exists f. split; [done|].
      by eapply list_elem_of_lookup_2.
    + congruence.
  - intros Hin. destruct (lookupId_is_Some x l Hin) as [[i f] ->]. by eexists.
Qed.

Lemma open_seeds_draft_from_instance_witness :
  (∀ i f, lookupId "date-2" sample = Some (i, f) →
     openEditModal sampleState "date-2"
     = Ok (mkState (fields sampleState) (Some "date-2") (label f) (type f)
                   (default "" (className f)) true (activeId sampleState)))
  ∧ ("date-2" ∉ id <$> sample → openEditModal sampleState "date-2" = Ok sampleState)
  ∧ (∀ s', showModal sampleState = false → openEditModal sampleState "date-2" = Ok s' →
           showModal s' = true → "date-2" ∈ id <$> sample)
  ∧ ("date-2" ∈ id <$> sample →
     ∃ s', openEditModal sampleState "date-2" = Ok s' ∧ showModal s' = true).
Proof.
  apply (open_seeds_draft_from_instance sampleState sample "date-2"). reflexivity.
Defined.

(** C7 as stated fails for an instance without a className (every
    instance the palette creates): opening seeds the draft class with the
    empty string and saving stores it, so className goes from absent to
    [""]. *)
Lemma edit_label_turns_absent_className_into_empty :
  className (mkField "text-1" text "Text Field 1" None) = None
  ∧ Page.run sampleState [Page.OpenEdit "text-1"; Page.ChangeLabel "X"; Page.SaveEdit]
    = Ok (mkState
            [ Some (mkField "text-1" text "X" (Some ""));
              Some (mkField "date-2" date "Date Field 2" None);
              Some (mkField "textarea-3" textarea "Textarea Field 3" None) ]
            (Some "text-1") "X" text "" false None)
  ∧ className (mkField "text-1" text "X" (Some "")) ≠ None.
Proof. split_and!; [reflexivity | reflexivity | discriminate]. Qed.

(** C7, amended: for the instance an id designates (any instance, when ids
    are distinct), open, set the draft label to X, save gives at the same
    index an instance with the same id and type and with label X; its
    className is the old one when there was one and the empty string when
    there was none, and the class the widget shows is unchanged. *)
Theorem edit_label_keeps_type_and_shown_class s l i f X :
  fields s = defined l →
  lookupId (id f) l = Some (i, f) →
  ∃ s' f',
    Page.run s [Page.OpenEdit (id f); Page.ChangeLabel X; Page.SaveEdit] = Ok s'
    ∧ fields s' !! i = Some (Some f')
    ∧ id f' = id f
    ∧ label f' = X
    ∧ type f' = type f
    ∧ className f' = Some (default "" (className f))
    ∧ (is_Some (className f) → className f' = className f)
    ∧ or_else (className f') "w-full" = or_else (className f) "w-full".
Proof.
  intros Hl Hf.
  cbn [Page.run Page.step mbind result_bind].
  rewrite (openEditModal_defined s l (id f) Hl), Hf.
  cbn [mbind result_bind].
  set (s2 := setEditLabel X _).
  assert (fields s2 = defined l) as Hl2 by (by rewrite <- Hl).
  rewrite (Page_handleSaveEdit_defined s2 l Hl2).
  apply lookupId_Some in Hf as [Hf _].
  eexists _, (withDraft s2 f). split; [reflexivity|]. split_and!.
  - cbn [fields setShowModal setFields]. unfold defined.
    rewrite !list_lookup_fmap, Hf. cbn.
    by case_bool_decide.
  - reflexivity.
  - reflexivity.
  - reflexivity.
  - reflexivity.
  - intros [c Hc]. cbn. by rewrite Hc.
  - cbn. by destruct (className f) as [c|].
Qed.

Lemma edit_label_keeps_type_and_shown_class_witness :
  ∃ s' f',
    Page.run sampleState [Page.OpenEdit "date-2"; Page.ChangeLabel "When"; Page.SaveEdit] = Ok s'
    ∧ fields s' !! 1%nat = Some (Some f')
    ∧ id f' = "date-2"
    ∧ label f' = "When"
    ∧ type f' = date
    ∧ className f' = Some ""
    ∧ (is_Some (@None string) → className f' = None)
    ∧ or_else (className f') "w-full" = "w-full".
Proof.
  apply (edit_label_keeps_type_and_shown_class sampleState sample 1
           (mkField "date-2" date "Date Field 2" None) "When");
    reflexivity.
Defined.

(** ** Ids *)

(** A decimal numeral has no dash, so the last dash of an id separates the
    template id from the timestamp. *)
Lemma pretty_N_go_no_dash x s :
  hasDash s = false → hasDash (pretty_N_go x s) = false.
Proof.
  revert s. induction (N.lt_wf_0 x) as [x _ IH]; intros s Hs.
  destruct (decide (0 < x)%N) as [Hpos|Hzero].
  - rewrite pretty_N_go_step by done.
    apply IH; [by apply N.div_lt|].
    simpl. rewrite Hs, orb_false_r.
    unfold pretty_N_char. by repeat case_match.
  - assert (x = 0%N) as -> by lia. by rewrite pretty_N_go_0.
Qed.

Lemma pretty_N_no_dash (n : N) : hasDash (pretty n) = false.
Proof.
  unfold pretty, pretty_N. case_decide; [done|].
  by apply pretty_N_go_no_dash.
Qed.

Lemma hasDash_after_dash s d : hasDash (s +:+ "-" +:+ d) = true.
Proof.
  induction s as [|c s IH]; [done|].
  change (Ascii.eqb c "-" || hasDash (s +:+ "-" +:+ d) = true).
  by rewrite IH, orb_true_r.
Qed.

Lemma append_dash_inj s1 s2 d1 d2 :
  hasDash d1 = false → hasDash d2 = false →
  s1 +:+ "-" +:+ d1 = s2 +:+ "-" +:+ d2 → s1 = s2 ∧ d1 = d2.
Proof.
  intros H1 H2. revert s2.
  induction s1 as [|c s1 IH]; intros [|c' s2] Heq.
  - change (String "-" d1 = String "-" d2) in Heq.
    by injection Heq as ->.
  - change (String "-" d1 = String c' (s2 +:+ "-" +:+ d2)) in Heq.
    injection Heq as _ ->. by rewrite hasDash_after_dash in H1.
  - change (String c (s1 +:+ "-" +:+ d1) = String "-" d2) in Heq.
    injection Heq as _ <-. by rewrite hasDash_after_dash in H2.
  - change (String c (s1 +:+ "-" +:+ d1) = String c' (s2 +:+ "-" +:+ d2)) in Heq.
    injection Heq as -> Heq. by destruct (IH s2 Heq) as [-> ->].
Qed.

Lemma freshId_inj k1 k2 : freshId k1 = freshId k2 → k1 = k2.
Proof.
  destruct k1 as [t1 n1], k2 as [t2 n2]. unfold freshId; simpl. intros Heq.
  apply append_dash_inj in Heq as [-> Hn]; [|apply pretty_N_no_dash..].
  by apply (inj pretty) in Hn as ->.
Qed.

Lemma ids_app fs1 fs2 : ids (fs1 ++ fs2) = ids fs1 ++ ids fs2.
Proof. unfold ids. apply omap_app. Qed.

Lemma ids_arrayMove fs from to : ids (arrayMove fs from to) ≡ₚ ids fs.
Proof.
  unfold ids.
  by destruct (arrayMove_Permutation_gen fs from to) as [-> | ->].
Qed.

Lemma ids_mapR (e : option string) (g : Field → Field) fs fs' :
  (∀ f, id (g f) = id f) →
  mapR (λ f : slot, b ← idIs e f; Ok (if (b : bool) then g <$> f else f)) fs = Ok fs' →
  ids fs' = ids fs.
Proof.
  intros Hg. revert fs'.
  induction fs as [|[f|] fs IH]; intros fs' Hmap; simpl in Hmap.
  - by injection Hmap as <-.
  - destruct (mapR _ fs) as [fs1|]; [|done]. simpl in Hmap.
    injection Hmap as <-. unfold ids in *.
    destruct (bool_decide _); cbn; rewrite ?Hg; f_equal; by apply IH.
  - done.
Qed.

(** What one event does to the ids of the list. *)
Lemma step_ids s e s' :
  Page.step s e = Ok s' →
  match e with
  | Page.AddField fieldType now =>
      fields s' = fields s
      ∨ ids (fields s') = ids (fields s) ++ [freshId (id fieldType, now)]
  | _ => ids (fields s') ≡ₚ ids (fields s)
  end.
Proof.
  destruct e as [x|ev|fieldType now|x|v|v|v| |v]; simpl; intros Hstep;
    try (by injection Hstep as <-).
  - unfold Page.handleDragEnd in Hstep.
    destruct (over ev) as [o|]; [|by injection Hstep as <-].
    destruct (bool_decide _); [|by injection Hstep as <-].
    cbn [fields setActiveId] in Hstep.
    destruct (findIndex (idIs (Some (active ev))) (fields s)) as [oldIndex|];
      cbn [mbind result_bind] in Hstep; [|done].
    destruct (findIndex (idIs (Some o)) (fields s)) as [newIndex|];
      cbn [mbind result_bind] in Hstep; [|done].
    injection Hstep as <-. apply ids_arrayMove.
  - injection Hstep as <-. unfold Page.handleAddField.
    case_bool_decide; [by left|]. right.
    cbn [fst fields setFields]. by rewrite ids_app.
  - unfold openEditModal in Hstep.
    destruct (find _ (fields s)) as [[[f|]|]|]; simpl in Hstep; try done;
      by injection Hstep as <-.
  - unfold Page.handleSaveEdit in Hstep.
    destruct (mapR _ (fields s)) as [fs|] eqn:Hmap; [|done].
    injection Hstep as <-. cbn [fields setShowModal setFields].
    by rewrite (ids_mapR _ (withDraft s) _ _ (λ f, eq_refl) Hmap).
Qed.

Lemma run_ids es : ∀ s s' seen,
  NoDup (ids (fields s)) →
  (∀ x, x ∈ ids (fields s) → x ∈ freshId <$> seen) →
  NoDup (seen ++ addKeys es) →
  Page.run s es = Ok s' →
  NoDup (ids (fields s')).
Proof.
  induction es as [|e es IH]; intros s s' seen Hnd Hseen Hkeys Hrun.
  - by injection Hrun as <-.
  - simpl in Hrun. destruct (Page.step s e) as [s1|] eqn:Hstep; [|done].
    simpl in Hrun. pose proof (step_ids s e s1 Hstep) as Hids.
    destruct e as [x|ev|fieldType now|x|v|v|v| |v];
      try (apply (IH s1 s' seen); [by rewrite Hids| |done|done];
           intros y; rewrite Hids; by apply Hseen).
    change (NoDup (seen ++ (id fieldType, now) :: addKeys es)) in Hkeys.
    revert Hkeys Hids. generalize (id fieldType, now). intros k Hkeys Hids.
    apply (IH s1 s' (seen ++ [k])); [| |by rewrite <- app_assoc|done].
    + destruct Hids as [-> | ->]; [done|].
      apply NoDup_app. split_and!; [done| |apply NoDup_singleton].
      intros y Hy ->%list_elem_of_singleton.
      apply Hseen, list_elem_of_fmap in Hy as (k' & ->%freshId_inj & Hk').
      apply NoDup_app in Hkeys as (_ & Hfresh & _).
      apply (Hfresh k' Hk'). by left.
    + intros y Hy. rewrite fmap_app. apply elem_of_app.
      destruct Hids as [Heq | Heq]; rewrite Heq in Hy.
      * left. by apply Hseen.
      * apply elem_of_app in Hy as [Hy|Hy]; [left; by apply Hseen|by right].
Qed.

(** C3 as stated fails: two adds of the same template within the same
    millisecond build the same id. *)
Lemma same_millisecond_adds_share_an_id :
  Page.run Page.init
    [ Page.AddField (mkField "text" text "Text Field" None) 5;
      Page.AddField (mkField "text" text "Text Field" None) 5 ]
  = Ok (mkState
          [ Some (mkField "text-5" text "Text Field 1" None);
            Some (mkField "text-5" text "Text Field 2" None) ]
          None "" text "" false None)
  ∧ ¬ NoDup (ids [ Some (mkField "text-5" text "Text Field 1" None);
                   Some (mkField "text-5" text "Text Field 2" None) ]).
Proof.
  split; [reflexivity|].
  apply (bool_decide_unpack _). vm_compute. reflexivity.
Qed.

(** C3, amended: in every state the page reaches from the empty list by
    adds, drops, edits and saves, the ids of the field instances are
    pairwise distinct, provided no two adds used the same template id
    together with the same [Date.now()] value. *)
Theorem ids_distinct_when_adds_differ es s :
  NoDup (addKeys es) →
  Page.run Page.init es = Ok s →
  NoDup (ids (fields s)).
Proof.
  intros Hkeys Hrun.
  apply (run_ids es Page.init s []); [apply NoDup_nil_2| |done|done].
  intros x Hx. by apply elem_of_nil in Hx.
Qed.

Lemma ids_distinct_when_adds_differ_witness :
  NoDup (ids [ Some (mkField "date-2" date "When" (Some ""));
               Some (mkField "textarea-2" textarea "Textarea Field 3" None);
               Some (mkField "text-1" text "Text Field 1" None) ]).
Proof.
  apply (ids_distinct_when_adds_differ
           [ Page.AddField (mkField "text" text "Text Field" None) 1;
             Page.AddField (mkField "date" date "Date Field" None) 2;
             Page.AddField (mkField "textarea" textarea "Textarea Field" None) 2;
             Page.DragStart "text-1";
             Page.DragEnd (mkDragEnd "text-1" (Some "textarea-2"));
             Page.OpenEdit "date-2"; Page.ChangeLabel "When"; Page.SaveEdit ]
           (mkState
              [ Some (mkField "date-2" date "When" (Some ""));
                Some (mkField "textarea-2" textarea "Textarea Field 3" None);
                Some (mkField "text-1" text "Text Field 1" None) ]
              (Some "date-2") "When" date "" false None)).
  - apply (bool_decide_unpack _). vm_compute. reflexivity.
  - reflexivity.
Defined.

(** ** Further properties of the drop handlers *)

(** Moving to index -1, which is where [findIndex] sends a target that is
    not in the list, puts the element last. *)
Lemma arrayMove_to_end {A} (l : list (option A)) (i : nat) x :
  l !! i = Some x → arrayMove l (Z.of_nat i) (-1) = delete i l ++ [x].
Proof.
  intros Hx. pose proof (lookup_lt_Some _ _ _ Hx) as Hlt.
  unfold arrayMove. rewrite (splice_remove_at l i x Hx).
  cbn [default lookup list_lookup].
  replace (if -1 <? 0 then Z.of_nat (length l) + -1 else -1)
    with (Z.of_nat (length (delete i l)))
    by (rewrite length_delete by eauto; simpl; lia).
  rewrite splice_insert_at by done.
  unfold insertAt. by rewrite take_ge, drop_ge by done.
Qed.

Lemma insertAt_delete_lookup {T} (l : list T) i j a k :
  l !! i = Some a → (j < length l)%nat →
  insertAt j a (delete i l) !! k
  = if decide (k = j) then Some a
    else if decide (i ≤ k < j)%nat then l !! S k
    else if decide (j < k ≤ i)%nat then l !! (k - 1)%nat
    else l !! k.
Proof.
  intros Ha Hj. pose proof (lookup_lt_Some _ _ _ Ha) as Hi.
  assert (length (delete i l) = (length l - 1)%nat) as Hlen
    by (apply length_delete; eauto).
  destruct (decide (k = j)) as [->|Hkj].
  { apply insertAt_lookup. lia. }
  unfold insertAt.
  destruct (decide (k < j)%nat) as [Hlt|Hge].
  - rewrite lookup_app_l by (rewrite length_take; lia).
    rewrite lookup_take_lt by done.
    destruct (decide (i ≤ k < j)%nat).
    + apply list_lookup_delete_ge. lia.
    + rewrite decide_False by lia. apply list_lookup_delete_lt. lia.
  - rewrite lookup_app_r by (rewrite length_take; lia).
    rewrite length_take, Hlen.
    replace (k - j `min` (length l - 1))%nat with (S (k - j - 1)) by lia.
    rewrite lookup_cons. cbv beta iota. rewrite lookup_drop.
    replace (j + (k - j - 1))%nat with (k - 1)%nat by lia.
    rewrite decide_False by lia.
    destruct (decide (j < k ≤ i)%nat).
    + apply list_lookup_delete_lt. lia.
    + rewrite list_lookup_delete_ge by lia. f_equal. lia.
Qed.

(** A drop with no target, or onto the dragged item itself, changes nothing
    but the drag session, in both pages. *)
Theorem drop_without_target_is_noop s l ev :
  fields s = defined l →
  over ev = None ∨ over ev = Some (active ev) →
  Page.handleDragEnd s ev = Ok (setActiveId None s)
  ∧ Static.handleDragEnd s ev = Ok (setActiveId None s).
Proof.
  intros Hl [Ho|Ho].
  - rewrite (Page_handleDragEnd_defined s l ev Hl),
            (Static_handleDragEnd_defined s l ev Hl), Ho. done.
  - by apply handleDragEnd_same.
Qed.

Lemma drop_without_target_is_noop_witness :
  Page.handleDragEnd sampleState (mkDragEnd "date-2" None)
  = Ok (setActiveId None sampleState)
  ∧ Static.handleDragEnd sampleState (mkDragEnd "date-2" None)
    = Ok (setActiveId None sampleState).
Proof.
  apply (drop_without_target_is_noop sampleState sample (mkDragEnd "date-2" None));
    [reflexivity | left; reflexivity].
Defined.

(** A drop onto a target that is not an instance of the list (the form
    area is such a drop target in [page.tsx]): [page.tsx] moves the dragged
    instance to the end of the list, the fixed-list page leaves the list as
    it is. *)
Theorem drop_on_foreign_target s l ev o i a :
  fields s = defined l →
  lookupId (active ev) l = Some (i, a) →
  over ev = Some o →
  o ∉ id <$> l →
  Page.handleDragEnd s ev
  = Ok (setFields (defined (delete i l ++ [a])) (setActiveId None s))
  ∧ Static.handleDragEnd s ev = Ok (setActiveId None s).
Proof.
  intros Hl Ha Ho Hno.
  assert (active ev ≠ o) as Hne.
  { intros Heq. apply Hno. rewrite <- Heq.
    apply lookupId_Some in Ha as [Ha <-].
    apply list_elem_of_fmap. exists a. split; [done|].
    by eapply list_elem_of_lookup_2. }
  apply lookupId_None in Hno.
  rewrite (Page_handleDragEnd_defined s l ev Hl),
          (Static_handleDragEnd_defined s l ev Hl), Ho.
  rewrite !bool_decide_eq_true_2 by done.
  rewrite Ha, Hno. cbn [indexZ]. split; [|done].
  apply lookupId_Some in Ha as [Ha _].
  rewrite (arrayMove_to_end _ i (Some a)).
  - unfold defined. by rewrite fmap_app, list_fmap_delete.
  - unfold defined. by rewrite list_lookup_fmap, Ha.
Qed.

Lemma drop_on_foreign_target_witness :
  Page.handleDragEnd sampleState (mkDragEnd "text-1" (Some "form-area"))
  = Ok (setFields
          (defined (delete 0%nat sample
                    ++ [mkField "text-1" text "Text Field 1" None]))
          (setActiveId None sampleState))
  ∧ Static.handleDragEnd sampleState (mkDragEnd "text-1" (Some "form-area"))
    = Ok (setActiveId None sampleState).
Proof.
  apply (drop_on_foreign_target sampleState sample
           (mkDragEnd "text-1" (Some "form-area")) "form-area" 0
           (mkField "text-1" text "Text Field 1" None));
    [reflexivity | reflexivity | reflexivity |].
  apply (bool_decide_unpack _). vm_compute. reflexivity.
Defined.

Lemma Static_drop_ends_drag s ev s' :
  Static.handleDragEnd s ev = Ok s' → activeId s' = None.
Proof.
  unfold Static.handleDragEnd. intros H.
  destruct (bool_decide _); [|by injection H as <-].
  cbn [fields setActiveId] in H.
  destruct (findIndex (idIs (Some (active ev))) (fields s)) as [oldIndex|];
    cbn [mbind result_bind] in H; [|done].
  destruct (findIndex (idIs (over ev)) (fields s)) as [newIndex|];
    cbn [mbind result_bind] in H; [|done].
  destruct (_ && _); by injection H as <-.
Qed.

(** A drop, whatever it does to the list, ends the drag session and leaves
    the edit session alone, in both pages and on any array. *)
Theorem drop_touches_only_list_and_drag_session s ev s' :
  Page.handleDragEnd s ev = Ok s' ∨ Static.handleDragEnd s ev = Ok s' →
  activeId s' = None
  ∧ editingId s' = editingId s
  ∧ editLabel s' = editLabel s
  ∧ editType s' = editType s
  ∧ editClass s' = editClass s
  ∧ showModal s' = showModal s.
Proof.
  intros [H|H].
  - unfold Page.handleDragEnd in H.
    destruct (over ev) as [o|]; [|by injection H as <-].
    destruct (bool_decide _); [|by injection H as <-].
    cbn [fields setActiveId] in H.
    destruct (findIndex (idIs (Some (active ev))) (fields s)) as [oldIndex|];
      cbn [mbind result_bind] in H; [|done].
    destruct (findIndex (idIs (Some o)) (fields s)) as [newIndex|];
      cbn [mbind result_bind] in H; [|done].
    by injection H as <-.
  - unfold Static.handleDragEnd in H.
    destruct (bool_decide _); [|by injection H as <-].
    cbn [fields setActiveId] in H.
    destruct (findIndex (idIs (Some (active ev))) (fields s)) as [oldIndex|];
      cbn [mbind result_bind] in H; [|done].
    destruct (findIndex (idIs (over ev)) (fields s)) as [newIndex|];
      cbn [mbind result_bind] in H; [|done].
    destruct (_ && _); by injection H as <-.
Qed.

Lemma drop_touches_only_list_and_drag_session_witness :
  let s := setShowModal true (setEditLabel "draft" (setActiveId (Some "date-2") sampleState)) in
  let s' := setFields
              (defined [ mkField "date-2" date "Date Field 2" None;
                         mkField "text-1" text "Text Field 1" None;
                         mkField "textarea-3" textarea "Textarea Field 3" None ])
              (setActiveId None s) in
  activeId s' = None
  ∧ editingId s' = editingId s
  ∧ editLabel s' = editLabel s
  ∧ editType s' = editType s
  ∧ editClass s' = editClass s
  ∧ showModal s' = showModal s.
Proof.
  intros s s'.
  apply (drop_touches_only_list_and_drag_session s
           (mkDragEnd "date-2" (Some "text-1")) s').
  left. reflexivity.
Defined.

(** Where every instance ends up after a drop of the instance at index [i]
    onto a different one at index [j] (both pages): the dragged one at [j],
    the ones between the two indices one place towards [i], all others
    where they were. *)
Theorem drop_shifts_instances_between s l ev o i j a b :
  fields s = defined l →
  over ev = Some o →
  lookupId (active ev) l = Some (i, a) →
  lookupId o l = Some (j, b) →
  active ev ≠ o →
  ∃ l', Page.handleDragEnd s ev = Ok (setFields (defined l') (setActiveId None s))
      ∧ Static.handleDragEnd s ev = Ok (setFields (defined l') (setActiveId None s))
      ∧ ∀ k, l' !! k
             = if decide (k = j) then Some a
               else if decide (i ≤ k < j)%nat then l !! S k
               else if decide (j < k ≤ i)%nat then l !! (k - 1)%nat
               else l !! k.
Proof.
  intros Hl Ho Ha Hb Hne.
  destruct (handleDragEnd_found s l ev o i j a b Hl Ho Ha Hb Hne) as [HP HS].
  exists (insertAt j a (delete i l)). split_and!; [done..|].
  intros k. apply lookupId_Some in Ha as [Ha _].
  apply lookupId_Some in Hb as [Hb%lookup_lt_Some _].
  by apply insertAt_delete_lookup.
Qed.

Lemma drop_shifts_instances_between_witness :
  ∃ l', Page.handleDragEnd sampleState (mkDragEnd "textarea-3" (Some "text-1"))
        = Ok (setFields (defined l') (setActiveId None sampleState))
      ∧ Static.handleDragEnd sampleState (mkDragEnd "textarea-3" (Some "text-1"))
        = Ok (setFields (defined l') (setActiveId None sampleState))
      ∧ ∀ k, l' !! k
             = if decide (k = 0%nat)
               then Some (mkField "textarea-3" textarea "Textarea Field 3" None)
               else if decide (2 ≤ k < 0)%nat then sample !! S k
               else if decide (0 < k ≤ 2)%nat then sample !! (k - 1)%nat
               else sample !! k.
Proof.
  apply (drop_shifts_instances_between sampleState sample
           (mkDragEnd "textarea-3" (Some "text-1")) "text-1" 2 0
           (mkField "textarea-3" textarea "Textarea Field 3" None)
           (mkField "text-1" text "Text Field 1" None));
    [reflexivity | reflexivity | reflexivity | reflexivity | discriminate].
Defined.

(** A drop keeps the instances and only reorders them: always in the
    fixed-list page, and in [page.tsx] whenever the list is not empty. *)
Theorem drop_permutes_instances s l ev :
  fields s = defined l →
  (∃ s' l', Static.handleDragEnd s ev = Ok s'
            ∧ fields s' = defined l' ∧ l' ≡ₚ l)
  ∧ (l ≠ [] →
     ∃ s' l', Page.handleDragEnd s ev = Ok s'
              ∧ fields s' = defined l' ∧ l' ≡ₚ l).
Proof.
  intros Hl. split.
  - by apply Static_drop_Permutation.
  - intros Hne. by apply Page_drop_Permutation_nonempty.
Qed.

Lemma drop_permutes_instances_witness :
  (∃ s' l', Static.handleDragEnd sampleState (mkDragEnd "ghost" (Some "date-2")) = Ok s'
            ∧ fields s' = defined l' ∧ l' ≡ₚ sample)
  ∧ (sample ≠ [] →
     ∃ s' l', Page.handleDragEnd sampleState (mkDragEnd "ghost" (Some "date-2")) = Ok s'
              ∧ fields s' = defined l' ∧ l' ≡ₚ sample).
Proof.
  apply (drop_permutes_instances sampleState sample (mkDragEnd "ghost" (Some "date-2"))).
  reflexivity.
Defined.

(** ** What the pages show *)

Lemma find_null l : find (idIs None) (defined l) = Ok None.
Proof. unfold defined. induction l as [|f l IH]; [done|]. simpl. apply IH. Qed.

Lemma sortableList_defined s l :
  fields s = defined l →
  sortableList s
  = Ok ((λ f, (id f, fieldTypes (type f) (label f) (className f))) <$> l).
Proof.
  intros Hl. unfold sortableList. rewrite Hl. clear Hl. unfold defined.
  induction l as [|f l IH]; [done|].
  cbn [fmap list_fmap mapR mbind result_bind]. rewrite IH. done.
Qed.

Lemma Page_activeField_defined s l :
  fields s = defined l →
  Page.activeField s
  = Ok (match activeId s with
        | Some x => if String.eqb x "" then None else snd <$> lookupId x l
        | None => None
        end).
Proof.
  intros Hl. unfold Page.activeField.
  destruct (activeId s) as [x|]; [|done].
  destruct (String.eqb x ""); [done|].
  rewrite Hl, find_defined. by destruct (lookupId x l) as [[i f]|].
Qed.

Lemma Static_activeField_defined s l :
  fields s = defined l →
  Static.activeField s
  = Ok (match activeId s with
        | Some x => snd <$> lookupId x l
        | None => None
        end).
Proof.
  intros Hl. unfold Static.activeField. rewrite Hl.
  destruct (activeId s) as [x|].
  - rewrite find_defined. by destruct (lookupId x l) as [[i f]|].
  - by rewrite find_null.
Qed.

Lemma or_else_nonempty c d : d ≠ "" → or_else c d ≠ "".
Proof.
  intros Hd. destruct c as [c|]; [|done]. simpl.
  by destruct (String.eqb_spec c "").
Qed.

(** While an instance of the list is dragged, the overlay shows the very
    widget the list shows for it ([page.tsx] treats the empty id as no
    drag). *)
Theorem overlay_shows_dragged_item s l x i f :
  fields s = defined l →
  lookupId x l = Some (i, f) →
  ∃ items w,
    sortableList s = Ok items
    ∧ items !! i = Some (x, w)
    ∧ Static.dragOverlay (Static.handleDragStart s x) = Ok (Some w)
    ∧ (x ≠ "" → Page.dragOverlay (Page.handleDragStart s x) = Ok (Some w)).
Proof.
  intros Hl Hx.
  pose proof (lookupId_Some _ _ _ _ Hx) as [Hf Hid].
  eexists _, (fieldTypes (type f) (label f) (className f)).
  split; [by apply sortableList_defined|]. split_and!.
  - rewrite list_lookup_fmap, Hf. simpl. by rewrite Hid.
  - unfold Static.dragOverlay.
    rewrite (Static_activeField_defined _ l) by done.
    cbn [activeId Static.handleDragStart setActiveId]. by rewrite Hx.
  - intros Hne. unfold Page.dragOverlay.
    rewrite (Page_activeField_defined _ l) by done.
    cbn [activeId Page.handleDragStart setActiveId]. rewrite Hx.
    by destruct (String.eqb_spec x "").
Qed.

Lemma overlay_shows_dragged_item_witness :
  ∃ items w,
    sortableList sampleState = Ok items
    ∧ items !! 1%nat = Some ("date-2", w)
    ∧ Static.dragOverlay (Static.handleDragStart sampleState "date-2") = Ok (Some w)
    ∧ ("date-2" ≠ "" →
       Page.dragOverlay (Page.handleDragStart sampleState "date-2") = Ok (Some w)).
Proof.
  apply (overlay_shows_dragged_item sampleState sample "date-2" 1
           (mkField "date-2" date "Date Field 2" None)); reflexivity.
Defined.

(** The overlay is empty when nothing is dragged, when the recorded id is
    not in the list, and after every drop. *)
Theorem overlay_empty_when_idle s l :
  fields s = defined l →
  (activeId s = None ∨ (∃ x, activeId s = Some x ∧ x ∉ id <$> l) →
     Page.dragOverlay s = Ok None ∧ Static.dragOverlay s = Ok None)
  ∧ (∀ ev, ∃ s', Static.handleDragEnd s ev = Ok s'
                 ∧ Static.dragOverlay s' = Ok None)
  ∧ (∀ ev, ∃ s', Page.handleDragEnd s ev = Ok s'
                 ∧ Page.dragOverlay s' = Ok None).
Proof.
  intros Hl. split_and!.
  - intros Hidle. unfold Page.dragOverlay, Static.dragOverlay.
    rewrite (Page_activeField_defined s l Hl), (Static_activeField_defined s l Hl).
    destruct Hidle as [-> | (x & -> & Hno)]; [done|].
    apply lookupId_None in Hno. rewrite Hno.
    by destruct (String.eqb x "").
  - intros ev.
    destruct (Static_drop_Permutation s l ev Hl) as (s' & l' & Hs' & Hl' & _).
    exists s'. split; [done|].
    pose proof (Static_drop_ends_drag s ev s' Hs') as Hact.
    unfold Static.dragOverlay.
    rewrite (Static_activeField_defined s' l' Hl'), Hact. done.
  - intros ev.
    rewrite (Page_handleDragEnd_defined s l ev Hl). eexists. split; [done|].
    unfold Page.dragOverlay, Page.activeField.
    destruct (over ev) as [o|]; [|done]. by destruct (bool_decide _).
Qed.

Lemma overlay_empty_when_idle_witness :
  (activeId sampleState = None
   ∨ (∃ x, activeId sampleState = Some x ∧ x ∉ id <$> sample) →
     Page.dragOverlay sampleState = Ok None
     ∧ Static.dragOverlay sampleState = Ok None)
  ∧ (∀ ev, ∃ s', Static.handleDragEnd sampleState ev = Ok s'
                 ∧ Static.dragOverlay s' = Ok None)
  ∧ (∀ ev, ∃ s', Page.handleDragEnd sampleState ev = Ok s'
                 ∧ Page.dragOverlay s' = Ok None).
Proof. apply (overlay_empty_when_idle sampleState sample). reflexivity. Defined.

(** The list renders exactly when no slot is [undefined]. *)
Theorem list_renders_iff_no_undefined_slot s :
  sortableList s = TypeError ↔ None ∈ fields s.
Proof.
  unfold sortableList. induction (fields s) as [|[f|] fs IH].
  - split; [done|]. by intros ?%elem_of_nil.
  - cbn [mapR mbind result_bind]. rewrite elem_of_cons.
    destruct (mapR _ fs) as [items|]; cbn [mbind result_bind].
    + split; [done|]. intros [?|Hin]; [done|]. by apply IH in Hin.
    + split; [|done]. intros _. right. by apply IH.
  - cbn [mapR mbind result_bind]. split; [|done]. intros _. by left.
Qed.

(** Every item of a well-typed list is shown under its id as key, with a
    class that is never empty: the instance's class, or "w-full" when it
    has none or an empty one. *)
Theorem rendered_items_have_a_class s l :
  fields s = defined l →
  ∃ items, sortableList s = Ok items
         ∧ items.*1 = id <$> l
         ∧ (∀ i f, l !! i = Some f →
              ∃ w, items !! i = Some (id f, w)
                   ∧ widgetClass w = or_else (className f) "w-full"
                   ∧ widgetClass w ≠ "").
Proof.
  intros Hl. eexists. split; [by apply sortableList_defined|]. split.
  - rewrite <- list_fmap_compose. by apply list_fmap_ext.
  - intros i f Hf. eexists. rewrite list_lookup_fmap, Hf.
    split; [reflexivity|].
    assert (widgetClass (fieldTypes (type f) (label f) (className f))
            = or_else (className f) "w-full") as -> by (by destruct (type f)).
    split; [done|]. by apply or_else_nonempty.
Qed.

Lemma rendered_items_have_a_class_witness :
  ∃ items, sortableList Static.init = Ok items
         ∧ items.*1 = ["1"; "2"; "3"]
         ∧ (∀ i f, [ mkField "1" text "Text Field" (Some "w-full");
                     mkField "2" textarea "Textarea Field" (Some "w-full");
                     mkField "3" date "Date Field" (Some "w-full") ] !! i = Some f →
              ∃ w, items !! i = Some (id f, w)
                   ∧ widgetClass w = or_else (className f) "w-full"
                   ∧ widgetClass w ≠ "").
Proof.
  apply (rendered_items_have_a_class Static.init
           [ mkField "1" text "Text Field" (Some "w-full");
             mkField "2" textarea "Textarea Field" (Some "w-full");
             mkField "3" date "Date Field" (Some "w-full") ]).
  reflexivity.
Defined.

(** ** Further properties of adding *)

Lemma setFields_fields s v : fields s = v → setFields v s = s.
Proof. intros <-. by destruct s. Qed.

Lemma length_defined l : length (defined l) = length l.
Proof. apply length_fmap. Qed.

Lemma handleAddField_defined s l field now :
  fields s = defined l →
  (length l < Page.MAX_FIELDS)%nat →
  Page.handleAddField s field now
  = (setFields (defined (l ++ [addedField (length l) (field, now)])) s, []).
Proof.
  intros Hl Hlt. unfold Page.handleAddField.
  rewrite Hl, length_defined, bool_decide_eq_false_2 by lia.
  unfold defined. by rewrite fmap_app.
Qed.

Lemma run_adds_fields calls : ∀ s l,
  fields s = defined l →
  Page.run s ((λ c, Page.AddField c.1 c.2) <$> calls)
  = Ok (setFields
          (defined (l ++ imap (λ i c, addedField (length l + i) c)
                              (take (Page.MAX_FIELDS - length l) calls)))
          s).
Proof.
  induction calls as [|c calls IH]; intros s l Hl.
  - rewrite take_nil. cbn. rewrite app_nil_r. by rewrite setFields_fields.
  - cbn [fmap list_fmap Page.run Page.step mbind result_bind].
    destruct (decide (Page.MAX_FIELDS ≤ length l)%nat) as [Hcap|Hcap].
    + rewrite handleAddField_full by (by rewrite Hl, length_defined).
      cbn [fst]. rewrite (IH s l Hl).
      by replace (Page.MAX_FIELDS - length l)%nat with 0%nat by lia.
    + rewrite (handleAddField_defined s l) by (done || lia). cbn [fst].
      destruct (Page.MAX_FIELDS - length l)%nat as [|m] eqn:Hm; [lia|].
      set (new := addedField (length l) (c.1, c.2)).
      rewrite (IH _ (l ++ [new])) by done.
      rewrite length_app. cbn [length].
      replace (Page.MAX_FIELDS - (length l + 1))%nat with m by lia.
      cbn [take]. rewrite imap_cons, <- app_assoc. cbn [app].
      replace (addedField (length l + 0) c) with new
        by (unfold new; rewrite Nat.add_0_r; by destruct c).
      destruct s. unfold setFields.
      cbn [fields editingId editLabel editType editClass showModal activeId].
      do 5 f_equal.
      apply imap_ext. intros i c' _.
      change (addedField (length l + 1 + i) c' = addedField (length l + S i) c').
      f_equal; lia.
Qed.

(** Clicking palette entries on the empty page builds, in click order, one
    instance per click up to the cap of 10 and ignores the later clicks;
    the instance of the click number k carries the number k in its label. *)
Theorem adds_build_numbered_list (calls : list (Field * N)) :
  Page.run Page.init ((λ c, Page.AddField c.1 c.2) <$> calls)
  = Ok (setFields (defined (imap addedField (take Page.MAX_FIELDS calls)))
                  Page.init).
Proof. by rewrite (run_adds_fields calls Page.init []). Qed.

(** A click on a palette entry never writes the warning: the entry is
    disabled exactly when [handleAddField] would refuse, and an enabled
    click is [handleAddField]'s append. *)
Theorem palette_click_never_warns s field now :
  (Page.clickAvailableField s field now).2 = []
  ∧ (Page.clickAvailableField s field now).1 = (Page.handleAddField s field now).1
  ∧ (Page.disabled s = true ↔
     fields (Page.clickAvailableField s field now).1 = fields s)
  ∧ (Page.disabled s = false →
     length (fields (Page.clickAvailableField s field now).1)
     = S (length (fields s))).
Proof.
  unfold Page.clickAvailableField, Page.handleAddField, Page.disabled.
  case_bool_decide as Hcap; cbn [fst snd fields setFields].
  - split_and!; try done.
  - split_and!; try done.
    + split; [done|]. intros Heq. apply (f_equal length) in Heq.
      rewrite length_app in Heq. simpl in Heq. lia.
    + intros _. rewrite length_app. simpl. lia.
Qed.

(** The two hints of the form area never show together, the "maximum
    reached" line shows exactly when the palette is disabled, and after an
    add the "click fields to add them" hint is gone. *)
Theorem hints_are_exclusive s :
  Page.emptyHint s && Page.maxHint s = false
  ∧ Page.maxHint s = Page.disabled s
  ∧ ∀ field now, Page.emptyHint (Page.handleAddField s field now).1 = false.
Proof.
  unfold Page.emptyHint, Page.maxHint, Page.disabled, Page.handleAddField,
    Page.MAX_FIELDS.
  split_and!.
  - repeat case_bool_decide; try done. lia.
  - done.
  - intros field now. apply bool_decide_eq_false_2.
    destruct (decide (10 ≤ length (fields s))%nat) as [Hcap|Hcap].
    + rewrite bool_decide_eq_true_2 by done. cbn [fst]. lia.
    + rewrite bool_decide_eq_false_2 by done. cbn [fst fields setFields].
      rewrite length_app. simpl. lia.
Qed.

(** Opening the instance an add has just appended, when its id is new to
    the list, seeds the draft with the numbered label, the template's type
    and the template's class or the empty string. *)
Theorem open_after_add_seeds_from_template s l field now :
  fields s = defined l →
  (length l < Page.MAX_FIELDS)%nat →
  freshId (id field, now) ∉ id <$> l →
  openEditModal (Page.handleAddField s field now).1 (freshId (id field, now))
  = Ok (mkState (defined (l ++ [addedField (length l) (field, now)]))
                (Some (freshId (id field, now)))
                (label field +:+ " " +:+ pretty (length l + 1)%nat)
                (type field)
                (default "" (className field))
                true (activeId s)).
Proof.
  intros Hl Hlt Hfresh.
  set (new := addedField (length l) (field, now)).
  rewrite (handleAddField_defined s l field now Hl Hlt). cbn [fst].
  fold new.
  rewrite (openEditModal_defined _ (l ++ [new])) by done.
  apply lookupId_None in Hfresh. unfold lookupId in *.
  rewrite list_find_app_r by done.
  cbn [list_find]. rewrite decide_True by done. done.
Qed.

Lemma open_after_add_seeds_from_template_witness :
  openEditModal
    (Page.handleAddField sampleState (mkField "date" date "Date Field" None) 9%N).1
    "date-9"
  = Ok (mkState
          (defined (sample ++ [mkField "date-9" date "Date Field 4" None]))
          (Some "date-9") "Date Field 4" date "" true None).
Proof.
  apply (open_after_add_seeds_from_template sampleState sample
           (mkField "date" date "Date Field" None) 9%N);
    [reflexivity | vm_compute; lia |].
  apply (bool_decide_unpack _). vm_compute. reflexivity.
Defined.

(** ** Further properties of editing *)

Lemma Static_handleSaveEdit_defined s l :
  fields s = defined l →
  Static.handleSaveEdit s
  = Ok (setShowModal false
         (setEditClass ""
           (setEditType text
             (setEditLabel ""
               (setEditingId None
                 (setFields
                    (defined ((λ f, if bool_decide (Some (id f) = editingId s)
                                    then withDraft s f else f) <$> l)) s)))))).
Proof.
  intros Hl. rewrite Static_handleSaveEdit_Page.
  by rewrite (Page_handleSaveEdit_defined s l Hl).
Qed.

Lemma mapR_idem (e : option string) (g : Field → Field) fs fs' :
  (∀ f, id (g f) = id f) → (∀ f, g (g f) = g f) →
  mapR (λ f : slot, b ← idIs e f; Ok (if (b : bool) then g <$> f else f)) fs = Ok fs' →
  mapR (λ f : slot, b ← idIs e f; Ok (if (b : bool) then g <$> f else f)) fs' = Ok fs'.
Proof.
  intros Hid Hgg. revert fs'.
  induction fs as [|[f|] fs IH]; intros fs' Hmap; simpl in Hmap.
  - by injection Hmap as <-.
  - destruct (mapR _ fs) as [fs1|]; [|done]. simpl in Hmap.
    injection Hmap as <-. simpl. rewrite (IH fs1 eq_refl). simpl.
    case_bool_decide as Hb; simpl.
    + rewrite Hid, bool_decide_eq_true_2 by done. by rewrite Hgg.
    + by rewrite bool_decide_eq_false_2.
  - done.
Qed.

Lemma mapR_null (e : option string) (g g' : Field → Field) fs fs' :
  mapR (λ f : slot, b ← idIs e f; Ok (if (b : bool) then g <$> f else f)) fs = Ok fs' →
  mapR (λ f : slot, b ← idIs None f; Ok (if (b : bool) then g' <$> f else f)) fs' = Ok fs'.
Proof.
  revert fs'. induction fs as [|[f|] fs IH]; intros fs' Hmap; simpl in Hmap.
  - by injection Hmap as <-.
  - destruct (mapR _ fs) as [fs1|]; [|done]. simpl in Hmap.
    injection Hmap as <-.
    destruct (bool_decide _); simpl; by rewrite (IH fs1 eq_refl).
  - done.
Qed.

(** With distinct ids, rewriting the instances that carry an id is an
    update at one index. *)
Lemma fmap_at_id (h : Field → Field) l i f :
  NoDup (id <$> l) → l !! i = Some f →
  (λ g, if bool_decide (Some (id g) = Some (id f)) then h g else g) <$> l
  = <[i := h f]> l.
Proof.
  intros Hnd Hf. apply list_eq. intros k.
  rewrite list_lookup_fmap.
  destruct (decide (k = i)) as [->|Hki].
  - rewrite list_lookup_insert_eq by (by eapply lookup_lt_Some).
    rewrite Hf. simpl. by rewrite bool_decide_eq_true_2.
  - rewrite list_lookup_insert_ne by done.
    destruct (l !! k) as [g|] eqn:Hg; [|done]. simpl.
    rewrite bool_decide_eq_false_2; [done|].
    intros [= Heq]. apply Hki.
    eapply (NoDup_lookup _ k i (id f) Hnd); rewrite list_lookup_fmap.
    + by rewrite Hg; simpl; rewrite Heq.
    + by rewrite Hf.
Qed.

Lemma save_at_index s l i f :
  NoDup (id <$> l) → fields s = defined l →
  l !! i = Some f → editingId s = Some (id f) →
  Page.handleSaveEdit s
  = Ok (setShowModal false (setFields (defined (<[i := withDraft s f]> l)) s)).
Proof.
  intros Hnd Hl Hf He.
  rewrite (Page_handleSaveEdit_defined s l Hl), He.
  by rewrite (fmap_at_id (withDraft s) l i f Hnd Hf).
Qed.

(** Saving twice is saving once, in both pages and on any array: a second
    Save leaves the state the first one produced. *)
Theorem save_is_idempotent s s' :
  (Page.handleSaveEdit s = Ok s' → Page.handleSaveEdit s' = Ok s')
  ∧ (Static.handleSaveEdit s = Ok s' → Static.handleSaveEdit s' = Ok s').
Proof.
  split.
  - unfold Page.handleSaveEdit.
    destruct (mapR _ (fields s)) as [fs|] eqn:Hmap; [|done].
    intros [= <-]. cbn [fields editingId setShowModal setFields].
    change (withDraft (setShowModal false (setFields fs s))) with (withDraft s).
    rewrite (mapR_idem _ (withDraft s) _ _ (λ f, eq_refl) (λ f, eq_refl) Hmap).
    by destruct s.
  - unfold Static.handleSaveEdit.
    destruct (mapR _ (fields s)) as [fs|] eqn:Hmap; [|done].
    intros [= <-].
    cbn [fields editingId setShowModal setEditClass setEditType setEditLabel
         setEditingId setFields].
    rewrite (mapR_null _ (withDraft s) _ _ _ Hmap). by destruct s.
Qed.

Lemma save_is_idempotent_witness :
  let s := setEditingId (Some "date-2") (setEditLabel "When" sampleState) in
  let l' := [ mkField "text-1" text "Text Field 1" None;
              mkField "date-2" text "When" (Some "");
              mkField "textarea-3" textarea "Textarea Field 3" None ] in
  Page.handleSaveEdit (setShowModal false (setFields (defined l') s))
  = Ok (setShowModal false (setFields (defined l') s)).
Proof.
  intros s l'.
  apply (proj1 (save_is_idempotent s (setShowModal false (setFields (defined l') s)))).
  reflexivity.
Defined.

(** Starting a drag, opening the modal, typing into the draft and closing
    the modal never touch the list: only a drop, an add or a save can. *)
Theorem session_events_keep_the_list s l es :
  fields s = defined l →
  forallb sessionEvent es = true →
  ∃ s', Page.run s es = Ok s' ∧ fields s' = fields s.
Proof.
  revert s. induction es as [|e es IH]; intros s Hl Hes.
  - by exists s.
  - simpl in Hes. apply andb_prop in Hes as [He Hes].
    assert (∃ s1, Page.step s e = Ok s1 ∧ fields s1 = fields s) as (s1 & Hstep & Hf).
    { destruct e as [x|ev|fieldType now|x|v|v|v| |v]; try done;
        try (by eexists).
      simpl. rewrite (openEditModal_defined s l x Hl).
      eexists. split; [done|]. by destruct (lookupId x l) as [[i f]|]. }
    destruct (IH s1) as (s' & Hrun & Hf'); [by rewrite Hf|done|].
    exists s'. simpl. rewrite Hstep. simpl. split; [done|]. by rewrite Hf'.
Qed.

Lemma session_events_keep_the_list_witness :
  ∃ s', Page.run sampleState
          [ Page.DragStart "text-1"; Page.OpenEdit "date-2";
            Page.ChangeLabel "When"; Page.ChangeType text;
            Page.ChangeClass "w-1/2"; Page.OpenChange false ] = Ok s'
        ∧ fields s' = fields sampleState.
Proof.
  apply (session_events_keep_the_list sampleState sample); reflexivity.
Defined.

(** With distinct ids, open, fill the draft and save writes exactly the
    draft into the opened instance, keeps its id and index, leaves every
    other instance as it was, and closes the modal. *)
Theorem save_writes_the_draft_at_one_index s l x i f L T C :
  NoDup (id <$> l) →
  fields s = defined l →
  lookupId x l = Some (i, f) →
  ∃ s', Page.run s [ Page.OpenEdit x; Page.ChangeLabel L; Page.ChangeType T;
                     Page.ChangeClass C; Page.SaveEdit ] = Ok s'
      ∧ fields s' = defined (<[i := mkField x T L (Some C)]> l)
      ∧ showModal s' = false.
Proof.
  intros Hnd Hl Hx.
  cbn [Page.run Page.step mbind result_bind].
  rewrite (openEditModal_defined s l x Hl), Hx.
  cbn [mbind result_bind].
  apply lookupId_Some in Hx as [Hf <-].
  set (s4 := setEditClass C _).
  rewrite (save_at_index s4 l i f) by (done || by rewrite <- Hl).
  by eexists.
Qed.

Lemma save_writes_the_draft_at_one_index_witness :
  ∃ s', Page.run sampleState
          [ Page.OpenEdit "date-2"; Page.ChangeLabel "Note"; Page.ChangeType textarea;
            Page.ChangeClass "w-1/2"; Page.SaveEdit ] = Ok s'
      ∧ fields s'
        = defined (<[1%nat := mkField "date-2" textarea "Note" (Some "w-1/2")]> sample)
      ∧ showModal s' = false.
Proof.
  apply (save_writes_the_draft_at_one_index sampleState sample "date-2" 1
           (mkField "date-2" date "Date Field 2" None) "Note" textarea "w-1/2");
    [|reflexivity|reflexivity].
  apply (bool_decide_unpack _). vm_compute. reflexivity.
Defined.

(** With distinct ids, opening an instance and saving at once changes at
    most its className, from absent to the empty string; an instance that
    has a className is left exactly as it was, and so is the list. *)
Theorem open_then_save_only_fills_class s l x i f :
  NoDup (id <$> l) →
  fields s = defined l →
  lookupId x l = Some (i, f) →
  ∃ s', Page.run s [Page.OpenEdit x; Page.SaveEdit] = Ok s'
      ∧ fields s'
        = defined (<[i := mkField (id f) (type f) (label f)
                                  (Some (default "" (className f)))]> l)
      ∧ (is_Some (className f) → fields s' = fields s).
Proof.
  intros Hnd Hl Hx.
  cbn [Page.run Page.step mbind result_bind].
  rewrite (openEditModal_defined s l x Hl), Hx.
  cbn [mbind result_bind].
  apply lookupId_Some in Hx as [Hf <-].
  set (s1 := mkState _ _ _ _ _ _ _).
  rewrite (save_at_index s1 l i f) by (done || by rewrite <- Hl).
  eexists. split; [done|]. split; [done|].
  intros [c Hc]. cbn [fields setShowModal setFields]. rewrite Hl. f_equal.
  apply list_insert_id. rewrite Hf. f_equal.
  destruct f as [fi ft fl fc]. simpl in *. by subst.
Qed.

Lemma open_then_save_only_fills_class_witness :
  ∃ s', Page.run sampleState [Page.OpenEdit "date-2"; Page.SaveEdit] = Ok s'
      ∧ fields s'
        = defined (<[1%nat := mkField "date-2" date "Date Field 2" (Some "")]> sample)
      ∧ (is_Some (@None string) → fields s' = fields sampleState).
Proof.
  apply (open_then_save_only_fills_class sampleState sample "date-2" 1
           (mkField "date-2" date "Date Field 2" None));
    [|reflexivity|reflexivity].
  apply (bool_decide_unpack _). vm_compute. reflexivity.
Defined.

(** ** Whole runs *)

Lemma ids_of_defined l : ids (defined l) = id <$> l.
Proof.
  unfold ids, defined. induction l as [|f l IH]; [done|].
  cbn. by f_equal.
Qed.

Lemma Static_step_invariant s l e :
  fields s = defined l →
  Forall (λ f, is_Some (className f)) l →
  ∃ s' l', Static.step s e = Ok s'
           ∧ fields s' = defined l'
           ∧ id <$> l' ≡ₚ id <$> l
           ∧ Forall (λ f, is_Some (className f)) l'.
Proof.
  intros Hl Hcls.
  destruct e as [x|ev|x|v|v|v| |v]; cbn [Static.step];
    try (by eexists _, l).
  - destruct (Static_drop_Permutation s l ev Hl) as (s' & l' & Hs' & Hl' & Hp).
    exists s', l'. split_and!; [done..| |]; by rewrite Hp.
  - rewrite (openEditModal_defined s l x Hl). eexists _, l.
    split_and!; [done| |done..]. by destruct (lookupId x l) as [[i f]|].
  - rewrite (Static_handleSaveEdit_defined s l Hl). eexists _, _.
    split_and!; [done..| |].
    + rewrite <- list_fmap_compose.
      erewrite list_fmap_ext; [done|]. intros i f _. simpl.
      by destruct (bool_decide _).
    + apply Forall_fmap. eapply Forall_impl; [exact Hcls|].
      intros f Hf. simpl. by destruct (bool_decide _); [eexists|].
Qed.

(** Whatever the user does on the fixed-list page, no handler throws and
    the list keeps exactly the three instances with ids 1, 2 and 3, in
    some order, each with a className. *)
Theorem fixed_list_page_keeps_its_three_fields (es : list Static.Event) :
  ∃ s l, Static.run Static.init es = Ok s
         ∧ fields s = defined l
         ∧ id <$> l ≡ₚ ["1"; "2"; "3"]
         ∧ Forall (λ f, is_Some (className f)) l.
Proof.
  cut (∀ s l, fields s = defined l →
              Forall (λ f, is_Some (className f)) l →
              ∃ s' l', Static.run s es = Ok s' ∧ fields s' = defined l'
                       ∧ id <$> l' ≡ₚ id <$> l
                       ∧ Forall (λ f, is_Some (className f)) l').
  { intros Hgen.
    apply (Hgen Static.init
             [ mkField "1" text "Text Field" (Some "w-full");
               mkField "2" textarea "Textarea Field" (Some "w-full");
               mkField "3" date "Date Field" (Some "w-full") ]); [done|].
    repeat constructor; by eexists. }
  induction es as [|e es IH]; intros s l Hl Hcls.
  - by exists s, l.
  - destruct (Static_step_invariant s l e Hl Hcls) as (s1 & l1 & Hstep & Hl1 & Hp1 & Hc1).
    destruct (IH s1 l1 Hl1 Hc1) as (s' & l' & Hrun & Hl' & Hp' & Hc').
    exists s', l'. simpl. rewrite Hstep. simpl.
    split_and!; [done..| |done]. by rewrite Hp'.
Qed.

Lemma Page_step_safe s l e :
  fields s = defined l →
  (length l ≤ Page.MAX_FIELDS)%nat →
  draggable s e = true →
  ∃ s' l', Page.step s e = Ok s'
           ∧ fields s' = defined l'
           ∧ (length l' ≤ Page.MAX_FIELDS)%nat.
Proof.
  intros Hl Hlen Hdrag.
  destruct e as [x|ev|fieldType now|x|v|v|v| |v]; cbn [Page.step];
    try (by eexists _, l).
  - simpl in Hdrag. apply bool_decide_eq_true in Hdrag.
    rewrite Hl, ids_of_defined in Hdrag.
    assert (l ≠ []) as Hne by (intros ->; by apply elem_of_nil in Hdrag).
    destruct (Page_drop_Permutation_nonempty s l ev Hl Hne)
      as (s' & l' & Hs' & Hl' & Hp).
    exists s', l'. split_and!; [done..|]. by rewrite Hp.
  - destruct (decide (Page.MAX_FIELDS ≤ length l)%nat) as [Hcap|Hcap].
    + rewrite handleAddField_full by (by rewrite Hl, length_defined).
      by exists s, l.
    + rewrite (handleAddField_defined s l) by (done || lia).
      eexists _, _. split_and!; [done..|].
      rewrite length_app. simpl. lia.
  - rewrite (openEditModal_defined s l x Hl). eexists _, l.
    split_and!; [done| |done]. by destruct (lookupId x l) as [[i f]|].
  - rewrite (Page_handleSaveEdit_defined s l Hl). eexists _, _.
    split_and!; [done..|]. by rewrite length_fmap.
Qed.

(** As long as every drag event carries the id of an instance of the list
    (only list items can be dragged), [page.tsx] never throws: every
    handler returns, the list stays free of [undefined] and within the cap,
    and it renders. *)
Theorem page_is_safe_on_draggable_traces es : ∀ s l,
  fields s = defined l →
  (length l ≤ Page.MAX_FIELDS)%nat →
  admissible s es = true →
  ∃ s' l' items,
    Page.run s es = Ok s'
    ∧ fields s' = defined l'
    ∧ (length l' ≤ Page.MAX_FIELDS)%nat
    ∧ sortableList s' = Ok items.
Proof.
  induction es as [|e es IH]; intros s l Hl Hlen Hadm.
  - eexists s, l, _. split_and!; [done..|]. by apply sortableList_defined.
  - simpl in Hadm. apply andb_prop in Hadm as [Hdrag Hadm].
    destruct (Page_step_safe s l e Hl Hlen Hdrag) as (s1 & l1 & Hstep & Hl1 & Hlen1).
    rewrite Hstep in Hadm.
    destruct (IH s1 l1 Hl1 Hlen1 Hadm) as (s' & l' & items & Hrun & Hrest).
    exists s', l', items. simpl. rewrite Hstep. simpl. by split.
Qed.

Lemma page_is_safe_on_draggable_traces_witness :
  ∃ s' l' items,
    Page.run Page.init
      [ Page.AddField (mkField "text" text "Text Field" None) 1;
        Page.AddField (mkField "date" date "Date Field" None) 2;
        Page.DragStart "date-2";
        Page.DragEnd (mkDragEnd "date-2" (Some "form-area"));
        Page.DragEnd (mkDragEnd "date-2" (Some "text-1"));
        Page.OpenEdit "text-1"; Page.ChangeLabel "Name"; Page.SaveEdit ] = Ok s'
    ∧ fields s' = defined l'
    ∧ (length l' ≤ Page.MAX_FIELDS)%nat
    ∧ sortableList s' = Ok items.
Proof.
  apply (page_is_safe_on_draggable_traces _ Page.init []);
    [reflexivity | vm_compute; lia | vm_compute; reflexivity].
Defined.

(** A drop of one id onto another on the empty list leaves [page.tsx] with
    the one-slot list [[undefined]]; from there the list no longer renders,
    and a save or another such drop throws. *)
Theorem drop_on_empty_list_breaks_the_page s ev o :
  fields s = [] →
  over ev = Some o →
  active ev ≠ o →
  ∃ s', Page.handleDragEnd s ev = Ok s'
      ∧ fields s' = [None]
      ∧ sortableList s' = TypeError
      ∧ Page.handleSaveEdit s' = TypeError
      ∧ ∀ ev' o', over ev' = Some o' → active ev' ≠ o' →
                  Page.handleDragEnd s' ev' = TypeError.
Proof.
  intros Hl Ho Hne. unfold Page.handleDragEnd. rewrite Ho.
  rewrite bool_decide_eq_true_2 by done.
  cbn [fields setActiveId]. rewrite Hl. eexists. split; [reflexivity|].
  split_and!; try reflexivity.
  intros ev' o' Ho' Hne'. unfold Page.handleDragEnd. rewrite Ho'.
  by rewrite bool_decide_eq_true_2.
Qed.

Lemma drop_on_empty_list_breaks_the_page_witness :
  ∃ s', Page.handleDragEnd Page.init (mkDragEnd "a" (Some "b")) = Ok s'
      ∧ fields s' = [None]
      ∧ sortableList s' = TypeError
      ∧ Page.handleSaveEdit s' = TypeError
      ∧ ∀ ev' o', over ev' = Some o' → active ev' ≠ o' →
                  Page.handleDragEnd s' ev' = TypeError.
Proof.
  apply (drop_on_empty_list_breaks_the_page Page.init (mkDragEnd "a" (Some "b")) "b");
    [reflexivity | reflexivity | discriminate].
Defined.

Lemma Page_drop_unknown_active_witness :
  Page.handleDragEnd sampleState (mkDragEnd "ghost" (Some "text-1"))
  = Ok (setFields
          (defined (insertAt 0
                      (mkField "textarea-3" textarea "Textarea Field 3" None)
                      [ mkField "text-1" text "Text Field 1" None;
                        mkField "date-2" date "Date Field 2" None ]))
          (setActiveId None sampleState)).
Proof.
  apply (Page_drop_unknown_active sampleState
           [ mkField "text-1" text "Text Field 1" None;
             mkField "date-2" date "Date Field 2" None ]
           (mkField "textarea-3" textarea "Textarea Field 3" None)
           (mkDragEnd "ghost" (Some "text-1")) "text-1" 0
           (mkField "text-1" text "Text Field 1" None));
    [reflexivity | | reflexivity | reflexivity].
  apply (bool_decide_unpack _). vm_compute. reflexivity.
Defined.

Lemma Static_drop_unknown_active_witness :
  Static.handleDragEnd Static.init (mkDragEnd "ghost" (Some "2"))
  = Ok (setActiveId None Static.init).
Proof.
  apply (Static_drop_unknown_active Static.init
           [ mkField "1" text "Text Field" (Some "w-full");
             mkField "2" textarea "Textarea Field" (Some "w-full");
             mkField "3" date "Date Field" (Some "w-full") ]
           (mkDragEnd "ghost" (Some "2"))); [reflexivity|].
  apply (bool_decide_unpack _). vm_compute. reflexivity.
Defined.
